(** * zaptunnel: the file server, the tunnel launcher and the size formatter

    A shallow embedding of [src/utils.ts], [src/server.ts] and
    [src/tunnel.ts], followed by the properties of the specification.

    - [Js]: the JavaScript notions the sources rely on (truthiness, number
      rendering, [String.prototype.includes], promises);
    - [Utils]: [formatBytes], [getFileInfo];
    - [Bcrypt]: the two functions of the [bcrypt] package the server calls;
    - [Server]: [FileServer], its [/download] handler, the callbacks of the
      read stream, [start], [stop], [getDownloadCount];
    - [Tunnel]: [CloudflareTunnel], [parseForUrl], the callbacks of the
      subprocess, [stop];
    - [Samples]: concrete servers, files and port tables;
    - the properties, module by module. *)

From Stdlib Require Import NArith ZArith String Ascii List Lia DecimalString.
From Stdlib Require Import DecimalN.
From stdpp Require Import base list gmap strings.

Local Open Scope N_scope.

(* ================================================================== *)
(** ** JavaScript notions shared by the three sources                 *)
(* ================================================================== *)

Module Js.

(** [${n}] for a non-negative integer number. *)
Definition show_N (n : N) : string := NilZero.string_of_uint (N.to_uint n).

(** [${n}] for an integer number. *)
Definition show_Z (z : Z) : string := NilZero.string_of_int (Z.to_int z).

(** Truthiness of a [string | undefined] (or [string | null]) value:
    absent and the empty string are falsy. *)
Definition truthy (v : option string) : bool :=
  match v with
  | Some s => negb (String.eqb s "")
  | None => false
  end.

(** [s.includes(sub)]. *)
Definition includes (s sub : string) : bool :=
  match String.index 0 sub s with
  | Some _ => true
  | None => false
  end.

(** A promise settles at most once: [resolve] and [reject] on a settled
    promise do nothing. *)
Inductive Promise (A : Type) : Type :=
| Pending
| Fulfilled (v : A)
| Rejected (reason : string).
Arguments Pending {A}.
Arguments Fulfilled {A} v.
Arguments Rejected {A} reason.

Definition resolve {A} (v : A) (p : Promise A) : Promise A :=
  match p with
  | Pending => Fulfilled v
  | _ => p
  end.

Definition reject {A} (reason : string) (p : Promise A) : Promise A :=
  match p with
  | Pending => Rejected reason
  | _ => p
  end.

End Js.

(* ================================================================== *)
(** ** [src/utils.ts]                                                 *)
(* ================================================================== *)

Module Utils.

(** [const k = 1024]. *)
Definition k : N := 1024.

(** [const sizes = ['B', 'KB', 'MB', 'GB', 'TB']]. *)
Definition sizes : list string := ["B"; "KB"; "MB"; "GB"; "TB"]%string.

(** [Math.floor(Math.log(bytes) / Math.log(k))], read in exact arithmetic:
    the integer logarithm of [bytes] in base [k = 2^10]
    (see [unit_index_spec] for the characterisation by powers of [k]). *)
Definition unit_index (bytes : N) : N := N.log2 bytes / 10.

(** [(bytes / Math.pow(k, i)).toFixed(2)], as a number of hundredths: the
    integer [n] for which [n / 100] is closest to [bytes / k^i], the larger
    one on a tie.  The quotient of an integer by a power of two is exact. *)
Definition toFixed2 (bytes i : N) : N :=
  (200 * bytes + k ^ i) / (2 * k ^ i).

(** One decimal digit. *)
Definition digit (d : N) : string := Js.show_N (d mod 10).

(** [`${parseFloat(s)}`] for the two-decimal string [s] of [n] hundredths:
    the decimal without trailing zeros, and without the point when the
    fraction vanishes. *)
Definition show_hundredths (n : N) : string :=
  let ip := n / 100 in
  let fp := n mod 100 in
  if fp =? 0 then Js.show_N ip
  else if fp mod 10 =? 0 then Js.show_N ip +:+ "." +:+ digit (fp / 10)
  else Js.show_N ip +:+ "." +:+ digit (fp / 10) +:+ digit fp.

(** [`${sizes[i]}`]: an index outside the array reads [undefined]. *)
Definition size_unit (i : N) : string :=
  match sizes !! N.to_nat i with
  | Some u => u
  | None => "undefined"
  end.

(** [formatBytes(bytes)]. *)
Definition formatBytes (bytes : N) : string :=
  if bytes =? 0 then "0 B"
  else
    let i := unit_index bytes in
    show_hundredths (toFixed2 bytes i) +:+ " " +:+ size_unit i.

(** [path.basename(p)] for a resolved POSIX path: what follows the last
    separator. *)
Fixpoint basename_from (acc : string) (p : string) : string :=
  match p with
  | EmptyString => acc
  | String c rest =>
      if Ascii.eqb c "/" then basename_from rest rest
      else basename_from acc rest
  end.

Definition basename (p : string) : string := basename_from p p.

(** The file system as the server sees it: regular files by absolute
    path, each with its bytes. *)
Abbreviation FS := (gmap string string).

Record FileInfo := {
  name : string;
  size : N;
  sizeFormatted : string;
}.

(** [getFileInfo(filePath)]; [None] when [fs.statSync] throws. *)
Definition getFileInfo (fs : FS) (filePath : string) : option FileInfo :=
  match fs !! filePath with
  | Some content =>
      let size := N.of_nat (String.length content) in
      Some {| name := basename filePath;
              size := size;
              sizeFormatted := formatBytes size |}
  | None => None
  end.

End Utils.

(* ================================================================== *)
(** ** The [bcrypt] package                                           *)
(* ================================================================== *)

Module Bcrypt.

(** The two entry points [src/server.ts] calls.  [hashSync] draws a random
    salt; an implementation here stands for one outcome of that draw. *)
Class Impl := {
  hashSync : string -> N -> string;
  compare : string -> string -> bool;
}.

(** A transparent stand-in used to run the model on concrete requests:
    the hash is the tagged clear text. *)
Definition tagged : Impl := {|
  hashSync := fun data _ => ("$2b$" +:+ data)%string;
  compare := fun data encrypted => String.eqb encrypted ("$2b$" +:+ data);
|}.

End Bcrypt.

(* ================================================================== *)
(** ** [src/server.ts]                                                *)
(* ================================================================== *)

Module Server.
Import Js Utils.

(** *** Express responses *)

Record Response := {
  statusCode : N;
  headers : list (string * string);
  headersSent : bool;
  body : string;
  finished : bool;
}.

Definition new_Response : Response :=
  {| statusCode := 200; headers := []; headersSent := false;
     body := ""; finished := false |}.

(** [res.status(code)]. *)
Definition status (code : N) (res : Response) : Response :=
  {| statusCode := code; headers := headers res;
     headersSent := headersSent res; body := body res;
     finished := finished res |}.

Definition getHeader (field : string) (res : Response) : option string :=
  snd <$> List.find (fun h => String.eqb (fst h) field) (headers res).

Definition hasHeader (field : string) (res : Response) : bool :=
  match getHeader field res with Some _ => true | None => false end.

(** [res.setHeader(field, value)]: replaces an earlier value. *)
Definition setHeader (field value : string) (res : Response) : Response :=
  {| statusCode := statusCode res;
     headers := (field, value)
                :: List.filter (fun h => negb (String.eqb (fst h) field))
                               (headers res);
     headersSent := headersSent res; body := body res;
     finished := finished res |}.

(** [res.send(text)] for a string: a content type when none is set, the
    length of the text, then head and body are written and the response is
    ended.  (Express also appends a charset to a content type already set
    and adds an [ETag]; neither is kept here.) *)
Definition send (text : string) (res : Response) : Response :=
  let res1 :=
    if hasHeader "Content-Type" res then res
    else setHeader "Content-Type" "text/html; charset=utf-8" res in
  let res2 :=
    setHeader "Content-Length" (show_N (N.of_nat (String.length text))) res1 in
  {| statusCode := statusCode res2; headers := headers res2;
     headersSent := true; body := text; finished := true |}.

(** [res.write(chunk)], the first one flushing the head. *)
Definition write (chunk : string) (res : Response) : Response :=
  {| statusCode := statusCode res; headers := headers res;
     headersSent := true; body := body res +:+ chunk;
     finished := finished res |}.

(** [res.end()]. *)
Definition end_ (res : Response) : Response :=
  {| statusCode := statusCode res; headers := headers res;
     headersSent := true; body := body res; finished := true |}.

(** *** The listener returned by [app.listen] *)

Record Listener := {
  bound : N;
  listening : bool;
}.

(** *** [FileServer] *)

Record ServerOptions := {
  options_filePath : string;
  options_password : option string;
  options_port : option N;
}.

Record FileServer := {
  filePath : string;
  passwordHash : option string;
  port : N;
  downloadCount : N;
  server : option Listener;
}.

(** [constructor(options)]: [options.port || 3000], and a hash only for a
    truthy [options.password]. *)
Definition new_FileServer `{Bcrypt.Impl} (options : ServerOptions)
  : FileServer :=
  {| filePath := options_filePath options;
     port := match options_port options with
             | Some p => if p =? 0 then 3000 else p
             | None => 3000
             end;
     passwordHash := match options_password options with
                     | Some pw =>
                         if truthy (Some pw)
                         then Some (Bcrypt.hashSync pw 10)
                         else None
                     | None => None
                     end;
     downloadCount := 0;
     server := None |}.

(** [getDownloadCount()]. *)
Definition getDownloadCount (s : FileServer) : N := downloadCount s.

Definition set_downloadCount (n : N) (s : FileServer) : FileServer :=
  {| filePath := filePath s; passwordHash := passwordHash s;
     port := port s; downloadCount := n; server := server s |}.

Definition set_port (p : N) (s : FileServer) : FileServer :=
  {| filePath := filePath s; passwordHash := passwordHash s;
     port := p; downloadCount := downloadCount s; server := server s |}.

Definition set_server (l : option Listener) (s : FileServer) : FileServer :=
  {| filePath := filePath s; passwordHash := passwordHash s;
     port := port s; downloadCount := downloadCount s; server := l |}.

(** *** Read streams and the per-request closure *)

Inductive StreamState := Flowing | Ended | Errored.

(** [fs.createReadStream(filePath)]: the bytes still to be read of the file
    as it was when the stream was opened. *)
Record ReadStream := {
  remaining : string;
  state : StreamState;
}.

(** What one run of the [/download] handler keeps alive: [fileInfo],
    [downloadedBytes] and [fileStream]. *)
Record Download := {
  fileInfo : FileInfo;
  downloadedBytes : N;
  fileStream : ReadStream;
}.

(** One request: its response, and its download once authorised. *)
Record Connection := {
  res : Response;
  download : option Download;
}.

(** What the server emits to its listeners.  The [progress] field of
    [downloadProgress] is [downloaded / total * 100] and is not kept. *)
Inductive Emitted :=
| downloadStarted
| downloadProgress (downloaded total : N)
| downloadComplete (downloaded total count : N)
| downloadError.

(** The server at run time, with the requests received so far (a request
    is named by its position) and the file system it reads. *)
Record App := {
  self : FileServer;
  fs : FS;
  connections : list Connection;
  emitted : list Emitted;
}.

(** The first [n] bytes of [s], and the bytes after them. *)
Fixpoint take_bytes (n : nat) (s : string) : string :=
  match n, s with
  | S m, String c rest => String c (take_bytes m rest)
  | _, _ => EmptyString
  end.

Fixpoint drop_bytes (n : nat) (s : string) : string :=
  match n, s with
  | S m, String _ rest => drop_bytes m rest
  | _, _ => s
  end.

Definition emit (e : Emitted) (a : App) : App :=
  {| self := self a; fs := fs a; connections := connections a;
     emitted := emitted a ++ [e] |}.

Definition add_connection (c : Connection) (a : App) : App :=
  {| self := self a; fs := fs a; connections := connections a ++ [c];
     emitted := emitted a |}.

Definition set_connection (id : nat) (c : Connection) (a : App) : App :=
  {| self := self a; fs := fs a; connections := <[id := c]> (connections a);
     emitted := emitted a |}.

Definition set_self (s : FileServer) (a : App) : App :=
  {| self := s; fs := fs a; connections := connections a;
     emitted := emitted a |}.

Definition set_fs (f : FS) (a : App) : App :=
  {| self := self a; fs := f; connections := connections a;
     emitted := emitted a |}.

(** *** The [/download] route *)

Inductive Auth := Granted | Denied (text : string).

(** Lines 61-74: the password check.  The query value is read as the
    [string] the handler casts it to. *)
Definition check_password `{Bcrypt.Impl} (s : FileServer)
    (password : option string) : Auth :=
  match passwordHash s with
  | Some h =>
      if truthy (Some h) then
        if negb (truthy password) then Denied "Password required"
        else
          match password with
          | Some pw =>
              if Bcrypt.compare pw h then Granted
              else Denied "Invalid password"
          | None => Denied "Password required"
          end
      else Granted
  | None => Granted
  end.

(** The double quote around the file name of the disposition. *)
Definition dquote : string := String "034"%char EmptyString.

(** Lines 76-87 and 119: the head of the response, the closure of the
    download and the opening of the stream; the [catch] of lines 120-124
    when [getFileInfo] throws. *)
Definition stream_file (a : App) : App :=
  match getFileInfo (fs a) (filePath (self a)),
        fs a !! filePath (self a) with
  | Some info, Some content =>
      let res0 := setHeader "Content-Type" "application/octet-stream"
                    new_Response in
      let res1 := setHeader "Content-Disposition"
                    ("attachment; filename=" +:+ dquote +:+ name info
                     +:+ dquote) res0 in
      let res2 := setHeader "Content-Length" (show_N (size info)) res1 in
      let d := {| fileInfo := info; downloadedBytes := 0;
                  fileStream := {| remaining := content;
                                   state := Flowing |} |} in
      add_connection {| res := res2; download := Some d |}
        (emit downloadStarted a)
  | _, _ =>
      let res0 := new_Response in
      add_connection
        {| res := if headersSent res0 then res0
                  else send "Error downloading file" (status 500 res0);
           download := None |} a
  end.

(** [this.app.get('/download', ...)]. *)
Definition get_download `{Bcrypt.Impl} (password : option string) (a : App)
  : App :=
  match check_password (self a) password with
  | Denied text =>
      add_connection
        {| res := send text (status 401 new_Response); download := None |} a
  | Granted => stream_file a
  end.

(** [fileStream.on('data', ...)] of lines 90-98, then the listener
    [pipe] installed, which writes the chunk to the response. *)
Definition on_data (id : nat) (c : Connection) (d : Download)
    (chunk : string) (a : App) : App :=
  let downloaded := downloadedBytes d + N.of_nat (String.length chunk) in
  let d' := {| fileInfo := fileInfo d; downloadedBytes := downloaded;
               fileStream := fileStream d |} in
  set_connection id {| res := write chunk (res c); download := Some d' |}
    (emit (downloadProgress downloaded (size (fileInfo d))) a).

(** [fileStream.on('end', ...)] of lines 101-108, then the listener of
    [pipe], which ends the response. *)
Definition on_end (id : nat) (c : Connection) (d : Download) (a : App)
  : App :=
  let count := downloadCount (self a) + 1 in
  let a1 := set_self (set_downloadCount count (self a)) a in
  set_connection id {| res := end_ (res c); download := Some d |}
    (emit (downloadComplete (downloadedBytes d) (size (fileInfo d)) count)
          a1).

(** [fileStream.on('error', ...)] of lines 111-116; [pipe] leaves the
    response open on a read error. *)
Definition on_error (id : nat) (c : Connection) (d : Download) (a : App)
  : App :=
  set_connection id
    {| res := if headersSent (res c) then res c
              else send "Error downloading file" (status 500 (res c));
       download := Some d |}
    (emit downloadError a).

(** *** The event loop *)

(** What reaches the server: a request, an event of the read stream of
    request [id] (['data'] with the next [n] bytes, ['end'], ['error']),
    or a change of the file system made from outside. *)
Inductive Input :=
| GetDownload (password : option string)
| Data (id n : nat)
| End_ (id : nat)
| Error (id : nat)
| WriteFile (path content : string)
| Unlink (path : string).

Definition set_stream (st : ReadStream) (d : Download) : Download :=
  {| fileInfo := fileInfo d; downloadedBytes := downloadedBytes d;
     fileStream := st |}.

(** A stream emits ['data'] only while flowing and with a non-empty chunk,
    ['end'] once, when flowing with nothing left to read, and nothing after
    ['end'] or ['error']. *)
Definition step `{Bcrypt.Impl} (a : App) (i : Input) : App :=
  match i with
  | GetDownload password => get_download password a
  | Data id n =>
      match connections a !! id with
      | Some {| res := r; download := Some d |} =>
          match state (fileStream d),
                take_bytes n (remaining (fileStream d)) with
          | Flowing, String c0 rest0 =>
              let st := {| remaining := drop_bytes n (remaining (fileStream d));
                           state := Flowing |} in
              on_data id {| res := r; download := Some (set_stream st d) |}
                (set_stream st d) (String c0 rest0) a
          | _, _ => a
          end
      | _ => a
      end
  | End_ id =>
      match connections a !! id with
      | Some {| res := r; download := Some d |} =>
          match state (fileStream d), remaining (fileStream d) with
          | Flowing, EmptyString =>
              let st := {| remaining := EmptyString; state := Ended |} in
              on_end id {| res := r; download := Some (set_stream st d) |}
                (set_stream st d) a
          | _, _ => a
          end
      | _ => a
      end
  | Error id =>
      match connections a !! id with
      | Some {| res := r; download := Some d |} =>
          match state (fileStream d) with
          | Flowing =>
              let st := {| remaining := remaining (fileStream d);
                           state := Errored |} in
              on_error id {| res := r; download := Some (set_stream st d) |}
                (set_stream st d) a
          | _ => a
          end
      | _ => a
      end
  | WriteFile path content => set_fs (<[path := content]> (fs a)) a
  | Unlink path => set_fs (delete path (fs a)) a
  end.

Definition run `{Bcrypt.Impl} (a : App) (inputs : list Input) : App :=
  fold_left step inputs a.

(** A server just constructed, before any request. *)
Definition boot `{Bcrypt.Impl} (options : ServerOptions) (files : FS) : App :=
  {| self := new_FileServer options; fs := files; connections := [];
     emitted := [] |}.

(** *** [start] and [stop] *)

(** What [app.listen(port, callback)] does on a port: it listens and calls
    back, it emits ['error'] with a code, or it throws at once. *)
Inductive ListenResult :=
| Listens
| EmitsError (code : string)
| Throws (message : string).

Abbreviation Net := (N -> ListenResult).

(** How [start()] ends: the promise is resolved, rejected, or left
    unsettled by an error nobody handles (an ['error'] event on a listener
    without handler, or a throw inside the ['error'] handler). *)
Inductive StartOutcome :=
| StartResolved (port : N)
| StartRejected (error : string)
| StartUncaught (error : string).

(** [start()].  The callback given to [listen] runs only when the listener
    is bound (Express 4); the ['error'] handler is registered on the first
    listener, not on the one of the retry. *)
Definition start (net : Net) (s : FileServer) : FileServer * StartOutcome :=
  match net (port s) with
  | Throws e => (s, StartRejected e)
  | Listens =>
      (set_server (Some {| bound := port s; listening := true |}) s,
       StartResolved (port s))
  | EmitsError code =>
      let s1 := set_server (Some {| bound := port s; listening := false |}) s
      in
      if String.eqb code "EADDRINUSE" then
        let s2 := set_port (port s1 + 1) s1 in
        match net (port s2) with
        | Listens =>
            (set_server (Some {| bound := port s2; listening := true |}) s2,
             StartResolved (port s2))
        | EmitsError code' =>
            (set_server (Some {| bound := port s2; listening := false |}) s2,
             StartUncaught code')
        | Throws e => (s2, StartUncaught e)
        end
      else (s1, StartRejected code)
  end.

(** [server.close(callback)]: the callback gets an error when the listener
    was not open.  When the callback runs (Node waits for open connections
    to end) is not part of the model, only that it runs. *)
Definition close (l : Listener) : Listener * option string :=
  if listening l then ({| bound := bound l; listening := false |}, None)
  else (l, Some "ERR_SERVER_NOT_RUNNING"%string).

(** [stop()]: the promise has no reject path, and the callback given to
    [close] ignores its argument. *)
Definition stop (s : FileServer) : FileServer * Promise unit :=
  match server s with
  | Some l =>
      let '(l', _) := close l in
      (set_server (Some l') s, resolve tt Pending)
  | None => (s, resolve tt Pending)
  end.

(** *** Observations on a running server *)


(** The read stream of the request emitted ['end']. *)
Definition stream_ended (c : Connection) : bool :=
  match download c with
  | Some d => match state (fileStream d) with Ended => true | _ => false end
  | None => false
  end.

(** The response is complete and its status is 200. *)
Definition completed_200 (c : Connection) : bool :=
  finished (res c) && (statusCode (res c) =? 200).

Definition count_if {A} (f : A -> bool) (l : list A) : nat :=
  length (List.filter f l).

(** The input is the ['end'] of a stream that can emit it. *)
Definition completes (a : App) (i : Input) : bool :=
  match i with
  | End_ id =>
      match connections a !! id with
      | Some {| res := _; download := Some d |} =>
          match state (fileStream d), remaining (fileStream d) with
          | Flowing, EmptyString => true
          | _, _ => false
          end
      | _ => false
      end
  | _ => false
  end.

(** What a stream event does to the request it belongs to: the local view
    of [step], related to it by [step_connections]. *)
Definition conn_after (i : Input) (c : Connection) : Connection :=
  match download c with
  | Some d =>
      match i, state (fileStream d) with
      | Data _ n, Flowing =>
          match take_bytes n (remaining (fileStream d)) with
          | String c0 rest0 =>
              {| res := write (String c0 rest0) (res c);
                 download :=
                   Some {| fileInfo := fileInfo d;
                           downloadedBytes :=
                             downloadedBytes d
                             + N.of_nat (String.length (String c0 rest0));
                           fileStream :=
                             {| remaining :=
                                  drop_bytes n (remaining (fileStream d));
                                state := Flowing |} |} |}
          | EmptyString => c
          end
      | End_ _, Flowing =>
          match remaining (fileStream d) with
          | EmptyString =>
              {| res := end_ (res c);
                 download :=
                   Some (set_stream {| remaining := EmptyString;
                                       state := Ended |} d) |}
          | String _ _ => c
          end
      | Error _, Flowing =>
          {| res := if headersSent (res c) then res c
                    else send "Error downloading file" (status 500 (res c));
             download :=
               Some (set_stream {| remaining := remaining (fileStream d);
                                   state := Errored |} d) |}
      | _, _ => c
      end
  | None => c
  end.

(** The 401 answer of lines 65 and 71, which opens no stream. *)
Definition unauthorized (text : string) : Connection :=
  {| res := send text (status 401 new_Response); download := None |}.

(** The head of a download response for a file of the given name and
    size. *)
Definition download_head (file_name : string) (file_size : N) : Response :=
  setHeader "Content-Length" (show_N file_size)
    (setHeader "Content-Disposition"
       ("attachment; filename=" +:+ dquote +:+ file_name +:+ dquote)
       (setHeader "Content-Type" "application/octet-stream" new_Response)).

(** A request and its stream agree: a response is complete with status
    200 exactly when its stream ended. *)
Definition coherent (c : Connection) : Prop :=
  match download c with
  | None => statusCode (res c) <> 200
  | Some d =>
      match state (fileStream d) with
      | Flowing => finished (res c) = false /\ statusCode (res c) = 200
      | Ended => finished (res c) = true /\ statusCode (res c) = 200
      | Errored => finished (res c) = false \/ statusCode (res c) <> 200
      end
  end.


(** The invariant of the event loop: every request agrees with its
    stream, and the counter is the number of streams that ended. *)
Definition counted (a : App) : Prop :=
  Forall coherent (connections a)
  /\ getDownloadCount (self a)
     = N.of_nat (count_if stream_ended (connections a)).

(** The read stream of request [id] delivering chunks of the given sizes
    and then ending. *)
Definition read_to_end (id : nat) (sizes : list nat) : list Input :=
  map (Data id) sizes ++ [End_ id].

End Server.


(* ================================================================== *)
(** ** [src/tunnel.ts]                                                *)
(* ================================================================== *)

Module Tunnel.
Import Js.

Record TunnelOptions := {
  options_port : N;
}.

(** The handle [spawn] returns. *)
Record ChildProcess := {
  command : string;
  args : list string;
}.

Record CloudflareTunnel := {
  options : TunnelOptions;
  process : option ChildProcess;
  tunnelUrl : option string;
}.

(** [constructor(options)]. *)
Definition new_CloudflareTunnel (o : TunnelOptions) : CloudflareTunnel :=
  {| options := o; process := None; tunnelUrl := None |}.

(** [getUrl()]. *)
Definition getUrl (t : CloudflareTunnel) : option string := tunnelUrl t.

(** [isRunning()]: both fields differ from [null]. *)
Definition isRunning (t : CloudflareTunnel) : bool :=
  match process t, tunnelUrl t with
  | Some _, Some _ => true
  | _, _ => false
  end.

(** *** The pattern [/https:\/\/[a-zA-Z0-9-]+\.trycloudflare\.com/] *)

(** The class [[a-zA-Z0-9-]]. *)
Definition is_label_char (c : ascii) : bool :=
  let n := N_of_ascii c in
  ((97 <=? n) && (n <=? 122)) || ((65 <=? n) && (n <=? 90))
  || ((48 <=? n) && (n <=? 57)) || (n =? 45).

(** The longest run of class characters at the head of [s], and the rest.
    The character after the class in the pattern is a dot, outside the
    class, so only the longest run can be followed by it: backtracking to a
    shorter run never succeeds. *)
Fixpoint span_label (s : string) : string * string :=
  match s with
  | String c rest =>
      if is_label_char c
      then let '(l, r) := span_label rest in (String c l, r)
      else (EmptyString, s)
  | EmptyString => (EmptyString, EmptyString)
  end.

(** [s] without its prefix [p], when it has it. *)
Fixpoint strip_prefix (p s : string) : option string :=
  match p, s with
  | EmptyString, _ => Some s
  | String a p', String b s' =>
      if Ascii.eqb a b then strip_prefix p' s' else None
  | String _ _, EmptyString => None
  end.

Definition scheme : string := "https://".
Definition domain : string := ".trycloudflare.com".

(** The match of the pattern that starts at the head of [s]. *)
Definition match_here (s : string) : option string :=
  match strip_prefix scheme s with
  | Some r =>
      let '(label, r') := span_label r in
      match label, strip_prefix domain r' with
      | String _ _, Some _ => Some (scheme +:+ label +:+ domain)
      | _, _ => None
      end
  | None => None
  end.

(** [output.match(pattern)]: the match at the leftmost position that has
    one, [None] for [null]. *)
Fixpoint regex_match (output : string) : option string :=
  match match_here output with
  | Some url => Some url
  | None =>
      match output with
      | String _ rest => regex_match rest
      | EmptyString => None
      end
  end.

(** *** One call of [start()] *)

(** The tunnel object together with what the promise executor of [start]
    keeps: the captured [stderr] text and the promise itself; [exits] are
    the ['exit'] events passed on to listeners, [killed] the handles
    [kill()] was called on. *)
Record Run := {
  this : CloudflareTunnel;
  stderr : string;
  promise : Promise string;
  exits : list (option Z);
  killed : list ChildProcess;
}.

Definition set_this (t : CloudflareTunnel) (r : Run) : Run :=
  {| this := t; stderr := stderr r; promise := promise r;
     exits := exits r; killed := killed r |}.

Definition set_promise (p : Promise string) (r : Run) : Run :=
  {| this := this r; stderr := stderr r; promise := p;
     exits := exits r; killed := killed r |}.

(** [start()] up to the registration of the listeners, for a [spawn] that
    returns a handle (a missing binary shows as an ['error'] event later). *)
Definition start (t : CloudflareTunnel) : Run :=
  let child :=
    {| command := "cloudflared";
       args := ["tunnel"; "--url";
                "http://localhost:" +:+ show_N (options_port (options t))]
               %string |} in
  {| this := {| options := options t; process := Some child;
                tunnelUrl := tunnelUrl t |};
     stderr := ""; promise := Pending; exits := []; killed := [] |}.

(** [parseForUrl(output)]. *)
Definition parseForUrl (output : string) (r : Run) : Run :=
  match regex_match output with
  | Some url =>
      if negb (truthy (tunnelUrl (this r))) then
        set_promise (resolve url (promise r))
          (set_this {| options := options (this r);
                       process := process (this r);
                       tunnelUrl := Some url |} r)
      else r
  | None => r
  end.

(** [stop()]. *)
Definition stop (r : Run) : Run :=
  match process (this r) with
  | Some child =>
      {| this := {| options := options (this r); process := None;
                    tunnelUrl := None |};
         stderr := stderr r; promise := promise r; exits := exits r;
         killed := killed r ++ [child] |}
  | None => r
  end.

(** [`${code}`] for [code: number | null]. *)
Definition show_code (code : option Z) : string :=
  match code with
  | Some z => show_Z z
  | None => "null"
  end.

(** The message of the error built on ['exit']. *)
Definition exit_message (code : option Z) (captured : string) : string :=
  "cloudflared exited with code " +:+ show_code code
  +:+ (if truthy (Some captured) then ": " +:+ captured else "").

Definition timeout_message : string :=
  "Timeout waiting for tunnel URL. Make sure cloudflared is installed.".

(** What happens after [start()] returned its promise: output on either
    stream, ['error'] or ['exit'] of the subprocess, the 30 s timer, or a
    call of [stop()]. *)
Inductive Event :=
| Stdout (data : string)
| Stderr (data : string)
| ProcessError (message : string)
| Exit (code : option Z)
| Timeout
| Stop.

Definition step (r : Run) (e : Event) : Run :=
  match e with
  | Stdout data => parseForUrl data r
  | Stderr data =>
      parseForUrl data
        {| this := this r; stderr := stderr r +:+ data;
           promise := promise r; exits := exits r; killed := killed r |}
  | ProcessError message =>
      set_promise
        (reject ("Failed to start cloudflared: " +:+ message) (promise r)) r
  | Exit code =>
      let r1 :=
        if negb (match code with Some 0%Z => true | _ => false end)
           && negb (truthy (tunnelUrl (this r)))
        then set_promise (reject (exit_message code (stderr r)) (promise r)) r
        else r in
      {| this := this r1; stderr := stderr r1; promise := promise r1;
         exits := exits r1 ++ [code]; killed := killed r1 |}
  | Timeout =>
      if negb (truthy (tunnelUrl (this r))) then
        let r1 := stop r in
        set_promise (reject timeout_message (promise r1)) r1
      else r
  | Stop => stop r
  end.

Definition run (r : Run) (events : list Event) : Run :=
  fold_left step events r.

(** The two output streams of the subprocess, and a chunk on one of them
    as an event. *)
Inductive Channel := stdout | stderr_.

Definition output_event (chunk : Channel * string) : Event :=
  match chunk with
  | (stdout, data) => Stdout data
  | (stderr_, data) => Stderr data
  end.

(** The match in the first chunk that has one. *)
Fixpoint first_match (chunks : list (Channel * string)) : option string :=
  match chunks with
  | [] => None
  | (_, data) :: rest =>
      match regex_match data with
      | Some url => Some url
      | None => first_match rest
      end
  end.

(** The stderr text of the chunks, in order. *)
Fixpoint captured (chunks : list (Channel * string)) : string :=
  match chunks with
  | [] => ""
  | (stderr_, data) :: rest => data +:+ captured rest
  | (stdout, _) :: rest => captured rest
  end.

Definition is_stop (e : Event) : bool :=
  match e with Stop => true | _ => false end.

(** *** What the pattern denotes *)

Fixpoint all_label (s : string) : bool :=
  match s with
  | EmptyString => true
  | String c rest => is_label_char c && all_label rest
  end.

(** The strings the pattern matches. *)
Definition is_url (u : string) : Prop :=
  exists label,
    all_label label = true /\ label <> EmptyString
    /\ u = scheme +:+ label +:+ domain.

(** [u] is the match of the pattern in [s] that starts first. *)
Definition leftmost_match (s u : string) : Prop :=
  exists pre post,
    s = pre +:+ u +:+ post /\ is_url u
    /\ forall pre' u' post',
         s = pre' +:+ u' +:+ post' -> is_url u' ->
         (String.length pre <= String.length pre')%nat.

(** The pattern matches nowhere in [s]. *)
Definition no_match (s : string) : Prop :=
  forall pre u post, s = pre +:+ u +:+ post -> ~ is_url u.

End Tunnel.

(* ================================================================== *)
(** ** [src/server.ts]: what the server emits                         *)
(* ================================================================== *)

Module ServerEvents.
Import Js Utils Server.

(** The request was authorised and its stream opened. *)
Definition stream_opened (c : Connection) : bool :=
  match download c with Some _ => true | None => false end.

(** The read stream of the request emitted ['error']. *)
Definition stream_errored (c : Connection) : bool :=
  match download c with
  | Some d => match state (fileStream d) with Errored => true | _ => false end
  | None => false
  end.

Definition is_started (e : Emitted) : bool :=
  match e with downloadStarted => true | _ => false end.

Definition is_complete (e : Emitted) : bool :=
  match e with downloadComplete _ _ _ => true | _ => false end.

Definition is_error (e : Emitted) : bool :=
  match e with downloadError => true | _ => false end.

(** The [count] fields of the ['downloadComplete'] events, in order. *)
Fixpoint complete_counts (es : list Emitted) : list N :=
  match es with
  | [] => []
  | downloadComplete _ _ count :: rest => count :: complete_counts rest
  | _ :: rest => complete_counts rest
  end.

(** What the callbacks of a read stream emit when the stream event [i]
    reaches the request [c] while the counter reads [count]: the local view
    of the [emit] calls of lines 93, 103 and 112. *)
Definition conn_events (count : N) (i : Input) (c : Connection)
  : list Emitted :=
  match download c with
  | Some d =>
      match i, state (fileStream d) with
      | Data _ n, Flowing =>
          match take_bytes n (remaining (fileStream d)) with
          | String c0 rest0 =>
              [downloadProgress
                 (downloadedBytes d
                  + N.of_nat (String.length (String c0 rest0)))
                 (size (fileInfo d))]
          | EmptyString => []
          end
      | End_ _, Flowing =>
          match remaining (fileStream d) with
          | EmptyString =>
              [downloadComplete (downloadedBytes d) (size (fileInfo d))
                 (count + 1)]
          | String _ _ => []
          end
      | Error _, Flowing => [downloadError]
      | _, _ => []
      end
  | None => []
  end.

(** What one input makes the server emit, related to [step] by
    [step_emitted]. *)
Definition events_of `{Bcrypt.Impl} (a : App) (i : Input) : list Emitted :=
  match i with
  | GetDownload password =>
      match check_password (self a) password,
            fs a !! filePath (self a) with
      | Granted, Some _ => [downloadStarted]
      | _, _ => []
      end
  | Data id _ | End_ id | Error id =>
      match connections a !! id with
      | Some c => conn_events (downloadCount (self a)) i c
      | None => []
      end
  | WriteFile _ _ | Unlink _ => []
  end.


(** The 500 answer of lines 114 and 122. *)
Definition server_error (res0 : Response) : Response :=
  send "Error downloading file" (status 500 res0).


End ServerEvents.

(* ================================================================== *)
(** ** [src/utils.ts]: [parseExpiration] and [validateFile]           *)
(* ================================================================== *)

Module UtilsRest.
Import Js Utils.

(** What a function returns or throws. *)
Inductive Result (A : Type) : Type :=
| Ok (value : A)
| Throw (message : string).
Arguments Ok {A} value.
Arguments Throw {A} message.

(** *** [parseInt(string, 10)] *)

Definition code (c : ascii) : N := N_of_ascii c.

(** The white space of one byte: TAB, LF, VT, FF, CR, SP. *)
Definition is_space1 (c : ascii) : bool :=
  ((9 <=? code c) && (code c <=? 13)) || (code c =? 32).

(** U+00A0 in UTF-8. *)
Definition is_space2 (c1 c2 : ascii) : bool :=
  (code c1 =? 194) && (code c2 =? 160).

(** U+1680, U+2000 to U+200A, U+2028, U+2029, U+202F, U+205F, U+3000 and
    U+FEFF in UTF-8. *)
Definition is_space3 (c1 c2 c3 : ascii) : bool :=
  ((code c1 =? 225) && (code c2 =? 154) && (code c3 =? 128))
  || ((code c1 =? 226) && (code c2 =? 128)
      && (((128 <=? code c3) && (code c3 <=? 138))
          || (code c3 =? 168) || (code c3 =? 169) || (code c3 =? 175)))
  || ((code c1 =? 226) && (code c2 =? 129) && (code c3 =? 159))
  || ((code c1 =? 227) && (code c2 =? 128) && (code c3 =? 128))
  || ((code c1 =? 239) && (code c2 =? 187) && (code c3 =? 191)).

(** The string without its leading white space. *)
Fixpoint trim_start (s : string) : string :=
  match s with
  | String c1 rest1 =>
      if is_space1 c1 then trim_start rest1
      else
        match rest1 with
        | String c2 rest2 =>
            if is_space2 c1 c2 then trim_start rest2
            else
              match rest2 with
              | String c3 rest3 =>
                  if is_space3 c1 c2 c3 then trim_start rest3 else s
              | EmptyString => s
              end
        | EmptyString => s
        end
  | EmptyString => s
  end.

Definition digit_of (c : ascii) : option N :=
  if (48 <=? code c) && (code c <=? 57) then Some (code c - 48) else None.

(** The value of the decimal digits at the head of [s], after [acc]. *)
Fixpoint parse_digits (acc : N) (s : string) : N :=
  match s with
  | String c rest =>
      match digit_of c with
      | Some d => parse_digits (10 * acc + d) rest
      | None => acc
      end
  | EmptyString => acc
  end.

(** [parseInt(s, 10)], [None] for [NaN]: leading white space, an optional
    sign, then the longest run of decimal digits; what follows is ignored.
    The value is exact (as the number is below 2^53), and [-0] reads 0. *)
Definition parseInt10 (s : string) : option Z :=
  let t := trim_start s in
  let '(negative, digits) :=
    match t with
    | String "-" rest => (true, rest)
    | String "+" rest => (false, rest)
    | _ => (false, t)
    end in
  match digits with
  | String c _ =>
      match digit_of c with
      | Some _ =>
          let value := Z.of_N (parse_digits 0 digits) in
          Some (if negative then (- value)%Z else value)
      | None => None
      end
  | EmptyString => None
  end.

(** What follows a number does not go on with a digit. *)
Definition no_leading_digit (rest : string) : Prop :=
  match rest with
  | String c _ => digit_of c = None
  | EmptyString => True
  end.

(** *** [parseExpiration] *)

(** The argument, [string | number]; a number is taken as an integer. *)
Inductive Expire :=
| ExpireNumber (z : Z)
| ExpireString (s : string).

Definition invalid_expiration : string := "Invalid expiration time".

(** [parseExpiration(expire)]. *)
Definition parseExpiration (expire : Expire) : Result Z :=
  match expire with
  | ExpireNumber z => Ok z
  | ExpireString s =>
      match parseInt10 s with
      | Some num =>
          if (num <=? 0)%Z then Throw invalid_expiration else Ok num
      | None => Throw invalid_expiration
      end
  end.

(** *** [path.resolve] on POSIX *)

(** [s.split('/')]. *)
Fixpoint split_path (s : string) : list string :=
  match s with
  | EmptyString => [EmptyString]
  | String c rest =>
      if Ascii.eqb c "/" then EmptyString :: split_path rest
      else
        match split_path rest with
        | seg :: segs => String c seg :: segs
        | [] => [String c EmptyString]
        end
  end.

(** The segments kept so far, last one first, after the segments [segs]:
    empty segments and [.] are dropped, [..] removes the last segment kept
    and is dropped at the root. *)
Fixpoint normalize_onto (kept : list string) (segs : list string)
  : list string :=
  match segs with
  | [] => kept
  | seg :: rest =>
      if String.eqb seg "" || String.eqb seg "." then normalize_onto kept rest
      else if String.eqb seg ".." then normalize_onto (tail kept) rest
      else normalize_onto (seg :: kept) rest
  end.

Definition is_absolute (p : string) : bool :=
  match p with
  | String c _ => Ascii.eqb c "/"
  | EmptyString => false
  end.

(** [path.resolve(filePath)] in the working directory [cwd], itself an
    absolute path: the path is taken from the root when it is absolute and
    from [cwd] otherwise, then normalised. *)
Definition resolve (cwd filePath : string) : string :=
  let tail := if String.eqb filePath "" then ""%string
              else filePath +:+ "/" in
  let full := if is_absolute filePath then tail else cwd +:+ "/" +:+ tail in
  "/" +:+ String.concat "/" (rev (normalize_onto [] (split_path full))).

(** *** [validateFile] *)

(** What a path names: a regular file with its bytes, readable or not by
    the process, or something that is not a regular file. *)
Inductive Entry :=
| RegularFile (content : string) (readable : bool)
| Directory.

(** The disk, by normalised absolute path. *)
Abbreviation Disk := (gmap string Entry).

Record Validation := {
  valid : bool;
  error : option string;
  absolutePath : option string;
}.

(** The message of the error [fs.accessSync] throws. *)
Definition access_denied (path : string) : string :=
  "EACCES: permission denied, access '" +:+ path +:+ "'".

(** [validateFile(filePath)]. *)
Definition validateFile (cwd : string) (disk : Disk) (filePath : string)
  : Validation :=
  let absolute := resolve cwd filePath in
  match disk !! absolute with
  | None =>
      {| valid := false;
         error := Some ("File does not exist: " +:+ filePath);
         absolutePath := None |}
  | Some Directory =>
      {| valid := false;
         error := Some ("Path is not a file: " +:+ filePath);
         absolutePath := None |}
  | Some (RegularFile _ false) =>
      {| valid := false;
         error := Some ("Cannot access file: " +:+ access_denied absolute);
         absolutePath := None |}
  | Some (RegularFile _ true) =>
      {| valid := true; error := None; absolutePath := Some absolute |}
  end.

(** The regular files the process can read, as the server sees them. *)
Definition served_files (disk : Disk) : FS :=
  omap (fun e => match e with
                 | RegularFile content true => Some content
                 | _ => None
                 end) disk.

(** A segment a normalised path is made of. *)
Fixpoint has_slash (s : string) : bool :=
  match s with
  | EmptyString => false
  | String c rest => Ascii.eqb c "/" || has_slash rest
  end.

Definition clean (seg : string) : Prop :=
  seg <> ""%string /\ seg <> "."%string /\ seg <> ".."%string
  /\ has_slash seg = false.

End UtilsRest.

(* ================================================================== *)
(** ** [src/cli.ts] and [src/fileServer.ts]                           *)
(* ================================================================== *)

Module Orchestrator.
Import Js Utils UtilsRest.

(** *** [ShareOptions] and the [share] command of [src/cli.ts] *)

Record ShareOptions := {
  share_filePath : string;
  share_maxDownloads : option Z;
  share_expire : option Z;
  share_password : option string;
}.

(** [value || fallback] for [number | undefined]: absent and 0 are
    falsy. *)
Definition or_default (value : option Z) (fallback : Z) : Z :=
  match value with
  | Some z => if (z =? 0)%Z then fallback else z
  | None => fallback
  end.

(** The options of [share] as commander hands them over: strings, with
    the defaults ['1'] and ['60']. *)
Record CliOptions := {
  cli_maxDownloads : string;
  cli_expire : string;
  cli_password : option string;
}.

(** What the action of [share] does: it calls [orchestrator.share], or it
    prints a message and exits. *)
Inductive CliOutcome :=
| CallsShare (options : ShareOptions)
| CliExits (exit_code : N) (message : string).

Definition invalid_max_downloads : string :=
  "✗ Invalid max-downloads value. Must be a positive number.".

(** Lines 22-43 of [src/cli.ts], up to the call of [share]. *)
Definition share_action (file : string) (options : CliOptions) : CliOutcome :=
  match parseInt10 (cli_maxDownloads options) with
  | Some maxDownloads =>
      if (maxDownloads <? 1)%Z then CliExits 1 invalid_max_downloads
      else
        match parseExpiration (ExpireString (cli_expire options)) with
        | Ok expire =>
            CallsShare {| share_filePath := file;
                          share_maxDownloads := Some maxDownloads;
                          share_expire := Some expire;
                          share_password := cli_password options |}
        | Throw message => CliExits 1 ("✗ Error: " +:+ message)
        end
  | None => CliExits 1 invalid_max_downloads
  end.

(** *** The state of a [FileServerOrchestrator] and of its process *)

(** A [cliProgress.SingleBar], by the calls made on it: [start] and
    [stop].  The [update] calls only change what is displayed. *)
Record ProgressBar := {
  bar_started : bool;
  bar_stopped : bool;
}.

(** The timer [setTimeout] returned: the delay it runs with, and whether
    [clearTimeout] was called on it. *)
Record Timer := {
  delay : Z;
  cleared : bool;
}.

(** The delay a timer of Node runs with, in milliseconds: a delay below 1
    or above 2^31 - 1 is set to 1. *)
Definition timer_delay (ms : Z) : Z :=
  if ((ms <? 1) || (2147483647 <? ms))%Z then 1%Z else ms.

(** How the process ended. *)
Inductive Termination :=
| ExitCode (exit_code : N)
| KilledBySignal.

(** The four fields of the orchestrator, with what the process keeps
    beside them: the [maxDownloads] the server listeners were registered
    with, whether the signal handlers are registered, the exit code of a
    [process.exit] that waits for [await this.cleanup()], and how the
    process ended, once it has.  [server] is the [FileServer] with the
    requests it handles.  What is printed is not kept. *)
Record Process := {
  server : option Server.App;
  tunnel : option Tunnel.Run;
  expirationTimer : option Timer;
  progressBar : option ProgressBar;
  listeners : option Z;
  signals : bool;
  exit_pending : option N;
  exited : option Termination;
}.

Definition new_Process : Process :=
  {| server := None; tunnel := None; expirationTimer := None;
     progressBar := None; listeners := None; signals := false;
     exit_pending := None; exited := None |}.

Definition set_server (a : option Server.App) (p : Process) : Process :=
  {| server := a; tunnel := tunnel p;
     expirationTimer := expirationTimer p; progressBar := progressBar p;
     listeners := listeners p; signals := signals p;
     exit_pending := exit_pending p; exited := exited p |}.

Definition set_tunnel (t : option Tunnel.Run) (p : Process) : Process :=
  {| server := server p; tunnel := t;
     expirationTimer := expirationTimer p; progressBar := progressBar p;
     listeners := listeners p; signals := signals p;
     exit_pending := exit_pending p; exited := exited p |}.

Definition set_progressBar (b : option ProgressBar) (p : Process) : Process :=
  {| server := server p; tunnel := tunnel p;
     expirationTimer := expirationTimer p; progressBar := b;
     listeners := listeners p; signals := signals p;
     exit_pending := exit_pending p; exited := exited p |}.

(** The process ends, unless it has ended. *)
Definition terminate (how : Termination) (p : Process) : Process :=
  {| server := server p; tunnel := tunnel p;
     expirationTimer := expirationTimer p; progressBar := progressBar p;
     listeners := listeners p; signals := signals p;
     exit_pending := exit_pending p;
     exited := match exited p with
               | Some t => Some t
               | None => Some how
               end |}.

(** [process.exit(code)], at once. *)
Definition exit (exit_code : N) (p : Process) : Process :=
  terminate (ExitCode exit_code) p.

(** [process.exit(code)] after [await this.cleanup()]: it runs when the
    promise of [cleanup()] resolves, and of several that wait the first
    runs first. *)
Definition exit_after_cleanup (exit_code : N) (p : Process) : Process :=
  {| server := server p; tunnel := tunnel p;
     expirationTimer := expirationTimer p; progressBar := progressBar p;
     listeners := listeners p; signals := signals p;
     exit_pending := match exit_pending p with
                     | Some c => Some c
                     | None => Some exit_code
                     end;
     exited := exited p |}.

(** [cleanup()], up to the [await]: the bar, the timer, the tunnel, the
    server. *)
Definition cleanup (p : Process) : Process :=
  {| server :=
       match server p with
       | Some a =>
           Some (Server.set_self (fst (Server.stop (Server.self a))) a)
       | None => None
       end;
     tunnel :=
       match tunnel p with
       | Some t => Some (Tunnel.stop t)
       | None => None
       end;
     expirationTimer :=
       match expirationTimer p with
       | Some t => Some {| delay := delay t; cleared := true |}
       | None => None
       end;
     progressBar :=
       match progressBar p with
       | Some b => Some {| bar_started := bar_started b;
                           bar_stopped := true |}
       | None => None
       end;
     listeners := listeners p; signals := signals p;
     exit_pending := exit_pending p; exited := exited p |}.

(** *** [setupServerListeners] *)

(** The four listeners of lines 105-169, for the [maxDownloads] they were
    registered with.  The bar made on ['downloadStarted'] is not started;
    the one made on ['downloadProgress'] is. *)
Definition on_server_event (maxDownloads : Z) (e : Server.Emitted)
    (p : Process) : Process :=
  match e with
  | Server.downloadStarted =>
      set_progressBar
        (Some {| bar_started := false; bar_stopped := false |}) p
  | Server.downloadProgress _ _ =>
      match progressBar p with
      | Some _ => p
      | None =>
          set_progressBar
            (Some {| bar_started := true; bar_stopped := false |}) p
      end
  | Server.downloadComplete _ _ count =>
      let p1 := set_progressBar None p in
      if (maxDownloads <=? Z.of_N count)%Z
      then exit_after_cleanup 0 (cleanup p1)
      else p1
  | Server.downloadError => set_progressBar None p
  end.

Definition on_server_events (events : list Server.Emitted) (p : Process)
  : Process :=
  match listeners p with
  | Some maxDownloads =>
      fold_left (fun q e => on_server_event maxDownloads e q) events p
  | None => p
  end.

(** *** The process after [share] was called *)

(** What reaches the process: an input of the server, an event of the
    tunnel, the expiration timer, a termination signal, or the
    resolution of the promise of [cleanup()]. *)
Inductive Input :=
| ServerInput (i : Server.Input)
| TunnelEvent (e : Tunnel.Event)
| TimerFired
| Signal
| CleanupResolved.

(** Nothing happens in a process that has ended.  A server input is
    handled by the server and what the server emits goes to the listeners;
    the timer runs its callback unless it was cleared; a signal without
    handler ends the process. *)
Definition step `{Bcrypt.Impl} (p : Process) (i : Input) : Process :=
  match exited p with
  | Some _ => p
  | None =>
      match i with
      | ServerInput si =>
          match server p with
          | Some a =>
              on_server_events (ServerEvents.events_of a si)
                (set_server (Some (Server.step a si)) p)
          | None => p
          end
      | TunnelEvent e =>
          match tunnel p with
          | Some t => set_tunnel (Some (Tunnel.step t e)) p
          | None => p
          end
      | TimerFired =>
          match expirationTimer p with
          | Some {| delay := _; cleared := false |} =>
              exit_after_cleanup 0 (cleanup p)
          | _ => p
          end
      | Signal =>
          if signals p then exit_after_cleanup 0 (cleanup p)
          else terminate KilledBySignal p
      | CleanupResolved =>
          match exit_pending p with
          | Some c => exit c p
          | None => p
          end
      end
  end.

Definition run `{Bcrypt.Impl} (p : Process) (inputs : list Input) : Process :=
  fold_left step inputs p.

(** *** [share] *)

(** Where [share] runs: the working directory, the disk, the ports, and
    what the tunnel subprocess does until the promise of
    [tunnel.start()] settles. *)
Record World := {
  cwd : string;
  disk : Disk;
  net : Server.Net;
  cloudflared : list Tunnel.Event;
}.

(** The server [share] constructs, with the files it can read. *)
Definition serving (w : World) (s : Server.FileServer) : Server.App :=
  {| Server.self := s; Server.fs := served_files (disk w);
     Server.connections := []; Server.emitted := [] |}.

(** [share(options)] in a new process, for a world in which no request
    reaches the server before [share] is through.  A rejected [start] of
    the server or of the tunnel goes to the [catch]: [cleanup], then exit
    code 1.  An error nobody handles in [server.start()] ends the process
    with code 1.  While the promise of [tunnel.start()] is pending,
    [share] has not gone past it.  [validateFile] gives a path whenever it
    says [valid]; [getFileInfo] is called for the line that is printed. *)
Definition share `{Bcrypt.Impl} (w : World) (options : ShareOptions)
  : Process :=
  let maxDownloads := or_default (share_maxDownloads options) 1 in
  let expireMinutes := or_default (share_expire options) 60 in
  let validation := validateFile (cwd w) (disk w) (share_filePath options) in
  match valid validation, absolutePath validation with
  | true, Some filePath =>
      let s0 :=
        Server.new_FileServer
          {| Server.options_filePath := filePath;
             Server.options_password := share_password options;
             Server.options_port := Some 3000 |} in
      match Server.start (net w) s0 with
      | (s1, Server.StartResolved port) =>
          let p1 :=
            {| server := Some (serving w s1); tunnel := None;
               expirationTimer := None; progressBar := None;
               listeners := Some maxDownloads; signals := false;
               exit_pending := None; exited := None |} in
          let t :=
            Tunnel.run
              (Tunnel.start
                 (Tunnel.new_CloudflareTunnel
                    {| Tunnel.options_port := port |}))
              (cloudflared w) in
          let p2 := set_tunnel (Some t) p1 in
          match Tunnel.promise t with
          | Fulfilled _ =>
              {| server := server p2; tunnel := tunnel p2;
                 expirationTimer :=
                   Some {| delay :=
                             timer_delay (expireMinutes * 60 * 1000)%Z;
                           cleared := false |};
                 progressBar := None; listeners := listeners p2;
                 signals := true; exit_pending := None; exited := None |}
          | Rejected _ => exit_after_cleanup 1 (cleanup p2)
          | Pending => p2
          end
      | (s1, Server.StartRejected _) =>
          exit_after_cleanup 1
            (cleanup (set_server (Some (serving w s1)) new_Process))
      | (s1, Server.StartUncaught _) =>
          exit 1 (set_server (Some (serving w s1)) new_Process)
      end
  | _, _ => exit 1 new_Process
  end.

(** *** Observations *)

(** The listener of the server, the tunnel and the expiration timer:
    what [cleanup] shuts down. *)
Definition listener (p : Process) : option Server.Listener :=
  match server p with
  | Some a => Server.server (Server.self a)
  | None => None
  end.

Definition services (p : Process)
  : option Server.Listener * option Tunnel.Run * option Timer :=
  (listener p, tunnel p, expirationTimer p).

(** The value of [getDownloadCount()] of the server. *)
Definition downloads (p : Process) : N :=
  match server p with
  | Some a => Server.getDownloadCount (Server.self a)
  | None => 0
  end.

(** The server [a] with [l] for listener. *)
Definition with_listener (l : option Server.Listener) (a : Server.App)
  : Server.App :=
  Server.set_self (Server.set_server l (Server.self a)) a.

(** Some download completed since the count read [before], and the count
    has reached [maxDownloads]. *)
Definition limit_reached (maxDownloads : Z) (before now : N) : bool :=
  (before <? now) && (maxDownloads <=? Z.of_N now)%Z.

(** [share] went through to its last statement. *)
Definition ready (p : Process) : bool := signals p.

(** [share] called [process.exit] or is about to. *)
Definition failed (p : Process) : bool :=
  match exit_pending p, exited p with
  | None, None => false
  | _, _ => true
  end.

(** The listener is closed, the tunnel has no subprocess and the timer is
    cleared. *)
Definition services_down (p : Process) : Prop :=
  match listener p with
  | Some l => Server.listening l = false
  | None => True
  end
  /\ match tunnel p with
     | Some t => Tunnel.process (Tunnel.this t) = None
     | None => True
     end
  /\ match expirationTimer p with
     | Some t => cleared t = true
     | None => True
     end.

(** Nothing is left running: the listener is closed, the tunnel has no
    subprocess and no URL, the timer is cleared, the bar is stopped. *)
Definition shut_down (p : Process) : Prop :=
  match listener p with
  | Some l => Server.listening l = false
  | None => True
  end
  /\ match tunnel p with
     | Some t => Tunnel.isRunning (Tunnel.this t) = false
                 /\ Tunnel.process (Tunnel.this t) = None
     | None => True
     end
  /\ match expirationTimer p with
     | Some t => cleared t = true
     | None => True
     end
  /\ match progressBar p with
     | Some b => bar_stopped b = true
     | None => True
     end.

End Orchestrator.

(* ================================================================== *)
(** ** Sample configurations                                          *)
(* ================================================================== *)

Module Samples.
Import Js Utils Server.

Definition report : string := "/srv/share/report.txt".

Definition files : FS := {[ report := "small test file"%string ]}.

Definition open_options : ServerOptions :=
  {| options_filePath := report; options_password := None;
     options_port := Some 3000 |}.

Definition protected_options : ServerOptions :=
  {| options_filePath := report; options_password := Some "secret123"%string;
     options_port := Some 3000 |}.


Definition open_app : App := boot (H := Bcrypt.tagged) open_options files.

Definition protected_app : App :=
  boot (H := Bcrypt.tagged) protected_options files.


(** Ports 3000 and 3001 are taken, every other port is free. *)
Definition two_ports_taken : Net :=
  fun p => if (p =? 3000) || (p =? 3001)
           then EmitsError "EADDRINUSE" else Listens.

(** Port 3000 is taken, every other port is free. *)
Definition one_port_taken : Net :=
  fun p => if p =? 3000 then EmitsError "EADDRINUSE" else Listens.

(** Binding port 3000 is refused for lack of permission. *)
Definition port_denied : Net :=
  fun p => if p =? 3000 then EmitsError "EACCES" else Listens.

Definition all_free : Net := fun _ => Listens.

(** A tunnel for port 3000 on which [start()] was just called. *)
Definition started_tunnel : Tunnel.Run :=
  Tunnel.start (Tunnel.new_CloudflareTunnel {| Tunnel.options_port := 3000 |}).

(** What cloudflared prints when it announces two addresses. *)
Definition announcement : list (Tunnel.Channel * string) :=
  [(Tunnel.stderr_, "INF Requesting new quick Tunnel"%string);
   (Tunnel.stderr_,
    "INF |  https://blue-sky-42.trycloudflare.com  |"%string);
   (Tunnel.stdout, "https://other.trycloudflare.com"%string)].

(** The listener refuses the port number outright. *)
Definition bad_port : Net := fun _ => Throws "ERR_SOCKET_BAD_PORT".

(** A disk with the report, the directory it is in, and a key file the
    process may not read. *)
Definition shared_disk : UtilsRest.Disk :=
  {[ report := UtilsRest.RegularFile "small test file" true;
     "/srv/share"%string := UtilsRest.Directory;
     "/srv/share/secret.key"%string := UtilsRest.RegularFile "k" false ]}.

(** cloudflared announces its address on stderr. *)
Definition tunnel_comes_up : list Tunnel.Event :=
  [Tunnel.Stderr "INF Requesting new quick Tunnel";
   Tunnel.Stderr "INF |  https://blue-sky-42.trycloudflare.com  |"]%string.

(** cloudflared is not installed. *)
Definition tunnel_missing : list Tunnel.Event :=
  [Tunnel.ProcessError "spawn cloudflared ENOENT"%string].

(** The process is started in [/srv], port 3000 is taken. *)
Definition busy_world : Orchestrator.World :=
  {| Orchestrator.cwd := "/srv"; Orchestrator.disk := shared_disk;
     Orchestrator.net := one_port_taken;
     Orchestrator.cloudflared := tunnel_comes_up |}.

Definition offline_world : Orchestrator.World :=
  {| Orchestrator.cwd := "/srv"; Orchestrator.disk := shared_disk;
     Orchestrator.net := all_free;
     Orchestrator.cloudflared := tunnel_missing |}.


(** A share meant to last thirty days. *)
Definition thirty_days : Orchestrator.ShareOptions :=
  {| Orchestrator.share_filePath := "share/report.txt";
     Orchestrator.share_maxDownloads := Some 1%Z;
     Orchestrator.share_expire := Some 43200%Z;
     Orchestrator.share_password := Some "secret123"%string |}.

(** One request whose stream delivers the report in one chunk and ends,
    as request number [id]. *)
Definition whole_download (id : nat) : list Input :=
  GetDownload None :: read_to_end id [15%nat].

(** [zaptunnel share share/report.txt -m 2]. *)
Definition two_downloads : Orchestrator.ShareOptions :=
  {| Orchestrator.share_filePath := "share/../share/report.txt";
     Orchestrator.share_maxDownloads := Some 2%Z;
     Orchestrator.share_expire := Some 60%Z;
     Orchestrator.share_password := None |}.

End Samples.

(* ================================================================== *)
(** ** Properties of [src/utils.ts]                                   *)
(* ================================================================== *)

Section UtilsProps.
Import Js Utils.

Lemma k_pow (i : N) : k ^ i = 2 ^ (10 * i).
Proof. unfold k. rewrite N.pow_mul_r. reflexivity. Qed.

Lemma k_pow_pos (i : N) : 0 < k ^ i.
Proof. rewrite k_pow. apply N.neq_0_lt_0, N.pow_nonzero. discriminate. Qed.

(** The index is the integer logarithm in base [k]: [bytes / k^i] lies in
    [[1, k)], so [i] is the largest unit whose scaled value is at least 1. *)
Lemma unit_index_spec (bytes : N) :
  1 <= bytes ->
  k ^ unit_index bytes <= bytes < k ^ (unit_index bytes + 1).
Proof.
  intros Hb. unfold unit_index.
  assert (Hpos : 0 < bytes) by lia.
  destruct (N.log2_spec bytes Hpos) as [Hlo Hhi].
  set (l := N.log2 bytes) in *.
  assert (Hq : 10 * (l / 10) <= l) by (apply N.Div0.mul_div_le).
  assert (Hr : l < 10 * (l / 10 + 1)).
  { pose proof (N.mod_upper_bound l 10 ltac:(discriminate)) as Hm.
    pose proof (N.Div0.div_mod l 10) as Hd. lia. }
  rewrite !k_pow. split.
  - etransitivity; [|exact Hlo].
    apply N.pow_le_mono_r; [discriminate|exact Hq].
  - eapply N.lt_le_trans; [exact Hhi|].
    apply N.pow_le_mono_r; [discriminate|lia].
Qed.

Lemma unit_index_largest (bytes j : N) :
  1 <= bytes -> k ^ j <= bytes -> j <= unit_index bytes.
Proof.
  intros Hb Hj. destruct (unit_index_spec bytes Hb) as [_ Hhi].
  destruct (N.le_gt_cases j (unit_index bytes)) as [|Hgt]; [assumption|].
  exfalso. apply (N.lt_irrefl bytes).
  eapply N.lt_le_trans; [exact Hhi|]. etransitivity; [|exact Hj].
  rewrite !k_pow. apply N.pow_le_mono_r; [discriminate|lia].
Qed.

Lemma unit_index_below (bytes n : N) :
  1 <= bytes -> bytes < k ^ n -> unit_index bytes < n.
Proof.
  intros Hb Hn. destruct (unit_index_spec bytes Hb) as [Hlo _].
  destruct (N.le_gt_cases n (unit_index bytes)) as [Hle|]; [|assumption].
  exfalso. apply (N.lt_irrefl bytes).
  eapply N.lt_le_trans; [exact Hn|]. etransitivity; [|exact Hlo].
  rewrite !k_pow. apply N.pow_le_mono_r; [discriminate|lia].
Qed.




Lemma formatBytes_nonzero (bytes : N) :
  1 <= bytes ->
  formatBytes bytes
  = show_hundredths (toFixed2 bytes (unit_index bytes)) +:+ " "
    +:+ size_unit (unit_index bytes).
Proof.
  intros Hb. unfold formatBytes.
  destruct (N.eqb_spec bytes 0) as [->|_]; [lia|reflexivity].
Qed.


Example formatBytes_zero : formatBytes 0 = "0 B"%string.
Proof. reflexivity. Qed.

Example formatBytes_1536 : formatBytes 1536 = "1.5 KB"%string.
Proof. vm_compute. reflexivity. Qed.

Example formatBytes_gibibyte : formatBytes 1073741824 = "1 GB"%string.
Proof. vm_compute. reflexivity. Qed.

(** C6. For every byte count the formatter is to render the size with one
    of the units B, KB, MB, GB, TB.  From one pebibyte on the code does not:
    the index computed for [2 * 1024^5] bytes is 5, the unit table has five
    entries, and the text returned is the magnitude followed by the
    placeholder of a missing array element. *)
Theorem formatBytes_two_pebibytes :
  unit_index (2 * 1024 ^ 5) = 5
  /\ sizes !! N.to_nat (unit_index (2 * 1024 ^ 5)) = None
  /\ formatBytes (2 * 1024 ^ 5) = "2 undefined"%string
  /\ ~ In (size_unit (unit_index (2 * 1024 ^ 5))) sizes.
Proof.
  split; [vm_compute; reflexivity|].
  split; [vm_compute; reflexivity|].
  split; [vm_compute; reflexivity|].
  vm_compute. intros H.
  repeat (destruct H as [H|H]; [discriminate H|]). exact H.
Qed.



End UtilsProps.

(* ================================================================== *)
(** ** Properties of [src/server.ts]: [start] and [stop]              *)
(* ================================================================== *)

Section ListenerProps.
Import Js Utils Server Samples.

Lemma start_first_port_free (net : Net) (s : FileServer) :
  net (port s) = Listens ->
  start net s
  = (set_server (Some {| bound := port s; listening := true |}) s,
     StartResolved (port s)).
Proof. intros Hfree. unfold start. rewrite Hfree. reflexivity. Qed.

Lemma start_one_conflict (net : Net) (s : FileServer) :
  net (port s) = EmitsError "EADDRINUSE" ->
  net (port s + 1) = Listens ->
  start net s
  = (set_server (Some {| bound := port s + 1; listening := true |})
       (set_port (port s + 1)
          (set_server (Some {| bound := port s; listening := false |}) s)),
     StartResolved (port s + 1)).
Proof.
  intros Hbusy Hfree. unfold start. rewrite Hbusy. cbn. rewrite Hfree.
  reflexivity.
Qed.

(** C3, as the code has it.  [start] binds the requested port when it is
    free.  On a conflict on the requested port it makes one further attempt,
    on the next integer port, and resolves with that port when it is free; a
    second server started on the port of a first one so binds the next
    port.  An error of the first attempt that is not a conflict, and a
    throw of [listen], reject the promise. *)
Theorem start_retries_next_port_once (net : Net) (s : FileServer) :
  (net (port s) = Listens ->
     snd (start net s) = StartResolved (port s)
     /\ server (fst (start net s))
        = Some {| bound := port s; listening := true |})
  /\ (net (port s) = EmitsError "EADDRINUSE" ->
      net (port s + 1) = Listens ->
      snd (start net s) = StartResolved (port s + 1)
      /\ port (fst (start net s)) = port s + 1
      /\ server (fst (start net s))
         = Some {| bound := port s + 1; listening := true |})
  /\ (forall code, net (port s) = EmitsError code ->
      code <> "EADDRINUSE"%string ->
      snd (start net s) = StartRejected code)
  /\ (forall e, net (port s) = Throws e ->
      start net s = (s, StartRejected e)).
Proof.
  split; [|split; [|split]].
  - intros Hfree. rewrite start_first_port_free by exact Hfree.
    split; reflexivity.
  - intros Hbusy Hfree. rewrite start_one_conflict by assumption.
    repeat split; reflexivity.
  - intros code Herr Hcode. unfold start. rewrite Herr.
    destruct (String.eqb_spec code "EADDRINUSE") as [->|_];
      [congruence|reflexivity].
  - intros e Hthrow. unfold start. rewrite Hthrow. reflexivity.
Qed.

Lemma start_retries_next_port_once_witness :
  (snd (start all_free (self open_app)) = StartResolved 3000
   /\ server (fst (start all_free (self open_app)))
      = Some {| bound := 3000; listening := true |})
  /\ (snd (start one_port_taken (self open_app)) = StartResolved 3001
      /\ port (fst (start one_port_taken (self open_app))) = 3001
      /\ server (fst (start one_port_taken (self open_app)))
         = Some {| bound := 3001; listening := true |})
  /\ snd (start port_denied (self open_app)) = StartRejected "EACCES"
  /\ start bad_port (self open_app)
     = (self open_app, StartRejected "ERR_SOCKET_BAD_PORT").
Proof.
  pose proof (start_retries_next_port_once all_free (self open_app))
    as (Hfree & _).
  pose proof (start_retries_next_port_once one_port_taken (self open_app))
    as (_ & Hnext & _).
  pose proof (start_retries_next_port_once port_denied (self open_app))
    as (_ & _ & Hother & _).
  pose proof (start_retries_next_port_once bad_port (self open_app))
    as (_ & _ & _ & Hthrow).
  split; [apply Hfree; reflexivity|].
  split; [apply Hnext; reflexivity|].
  split; [apply (Hother "EACCES"%string); [reflexivity|discriminate]|].
  apply Hthrow. reflexivity.
Defined.

(** C3, as stated, fails: with the requested port and the next one both
    taken, and the port after them free, [start] does not go on to the free
    port.  The second conflict is raised on a listener that has no handler,
    and the promise is never resolved. *)
Lemma start_two_conflicts_not_resolved :
  two_ports_taken 3000 = EmitsError "EADDRINUSE"
  /\ two_ports_taken 3001 = EmitsError "EADDRINUSE"
  /\ two_ports_taken 3002 = Listens
  /\ port (self open_app) = 3000
  /\ snd (start two_ports_taken (self open_app)) = StartUncaught "EADDRINUSE"
  /\ snd (start two_ports_taken (self open_app)) <> StartResolved 3002.
Proof. repeat split; try reflexivity. vm_compute. discriminate. Qed.

(** C9. [stop] never rejects and is idempotent: on a server that was never
    started it resolves and changes nothing; after a first [stop] a second
    one resolves and changes nothing; whatever the server, the promise
    [stop] returns is resolved. *)
Theorem stop_idempotent `{Bcrypt.Impl} :
  (forall options : ServerOptions,
     stop (new_FileServer options) = (new_FileServer options, Fulfilled tt))
  /\ (forall s : FileServer,
        stop (fst (stop s)) = (fst (stop s), Fulfilled tt))
  /\ (forall s : FileServer, snd (stop s) = Fulfilled tt).
Proof.
  split; [|split].
  - intros options. reflexivity.
  - intros s. unfold stop.
    destruct (server s) as [[b []]|] eqn:Es; cbn; try rewrite Es;
      reflexivity.
  - intros s. unfold stop.
    destruct (server s) as [[b []]|]; reflexivity.
Qed.

Example stop_after_start_and_stop :
  let s1 := fst (start all_free (self open_app)) in
  let s2 := fst (stop s1) in
  server s1 = Some {| bound := 3000; listening := true |}
  /\ server s2 = Some {| bound := 3000; listening := false |}
  /\ stop s2 = (s2, Fulfilled tt).
Proof. repeat split; reflexivity. Qed.

End ListenerProps.

(* ================================================================== *)
(** ** Properties of [src/server.ts]: the password gate               *)
(* ================================================================== *)

Section GateProps.
Import Js Utils Server Samples.
Context `{Bcrypt.Impl}.


Lemma unauthorized_response (text : string) :
  statusCode (res (unauthorized text)) = 401
  /\ body (res (unauthorized text)) = text
  /\ finished (res (unauthorized text)) = true
  /\ download (unauthorized text) = None.
Proof. repeat split. Qed.




(** What [stream_file] opens when the file can be read. *)
Lemma stream_file_readable (a : App) (content : string) :
  fs a !! filePath (self a) = Some content ->
  stream_file a
  = add_connection
      {| res := download_head (basename (filePath (self a)))
                  (N.of_nat (String.length content));
         download :=
           Some {| fileInfo :=
                     {| name := basename (filePath (self a));
                        size := N.of_nat (String.length content);
                        sizeFormatted :=
                          formatBytes (N.of_nat (String.length content)) |};
                   downloadedBytes := 0;
                   fileStream := {| remaining := content;
                                    state := Flowing |} |} |}
      (emit downloadStarted a).
Proof.
  intros Hfile. unfold stream_file, getFileInfo. rewrite Hfile. reflexivity.
Qed.

End GateProps.

(* ================================================================== *)
(** ** Properties of [src/server.ts]: requests and their streams      *)
(* ================================================================== *)

Section ListFacts.
Context {A : Type}.

Lemma alter_at (f : A -> A) (l : list A) (i : nat) (x : A) :
  l !! i = Some x -> alter f i l = <[i := f x]> l.
Proof.
  revert i. induction l as [|y l IH]; intros [|i] Hx; try discriminate.
  - cbn in Hx. injection Hx as ->. reflexivity.
  - cbn in *. f_equal. apply IH. exact Hx.
Qed.

Lemma alter_outside (f : A -> A) (l : list A) (i : nat) :
  l !! i = None -> alter f i l = l.
Proof.
  revert i. induction l as [|y l IH]; intros [|i] Hx; try discriminate;
    try reflexivity.
  cbn in *. f_equal. apply IH. exact Hx.
Qed.

Lemma count_if_app (f : A -> bool) (l1 l2 : list A) :
  Server.count_if f (l1 ++ l2)
  = (Server.count_if f l1 + Server.count_if f l2)%nat.
Proof.
  unfold Server.count_if. rewrite List.filter_app, length_app. reflexivity.
Qed.

Lemma count_if_alter (f : A -> bool) (g : A -> A) (l : list A) (i : nat)
    (x : A) :
  l !! i = Some x ->
  (Server.count_if f (alter g i l) + (if f x then 1 else 0)
   = Server.count_if f l + (if f (g x) then 1 else 0))%nat.
Proof.
  unfold Server.count_if.
  revert i. induction l as [|y l IH]; intros [|i] Hx; try discriminate.
  - cbn in Hx. injection Hx as ->. cbn.
    destruct (f x), (f (g x)); cbn; lia.
  - cbn in Hx. specialize (IH i Hx). cbn.
    destruct (f y); cbn; lia.
Qed.


End ListFacts.

Section StringFacts.

Lemma append_nil (t : string) : EmptyString +:+ t = t.
Proof. reflexivity. Qed.

Lemma append_cons (c : ascii) (s t : string) :
  String c s +:+ t = String c (s +:+ t).
Proof. reflexivity. Qed.

Lemma append_empty_r (s : string) : s +:+ "" = s.
Proof.
  induction s as [|c s IH]; [reflexivity|]. rewrite append_cons, IH.
  reflexivity.
Qed.

Lemma append_assoc (s1 s2 s3 : string) :
  (s1 +:+ s2) +:+ s3 = s1 +:+ (s2 +:+ s3).
Proof.
  induction s1 as [|c s1 IH]; [reflexivity|].
  rewrite !append_cons, IH. reflexivity.
Qed.





End StringFacts.

Section StreamProps.
Import Js Utils Server Samples.
Context `{Bcrypt.Impl}.

(** *** [step] seen from the list of requests *)

Lemma get_download_connections (q : option string) (a : App) :
  exists c,
    connections (get_download q a) = connections a ++ [c]
    /\ self (get_download q a) = self a
    /\ coherent c /\ stream_ended c = false.
Proof.
  unfold get_download. destruct (check_password (self a) q) as [|text].
  - unfold stream_file.
    destruct (getFileInfo (fs a) (filePath (self a))) as [info|];
      [destruct (fs a !! filePath (self a)) as [content|]|];
      eexists; (split; [reflexivity|]); (split; [reflexivity|]);
      (split; [|reflexivity]); cbn; try (split; reflexivity); discriminate.
  - eexists. split; [reflexivity|]. split; [reflexivity|].
    split; [|reflexivity]. cbn. discriminate.
Qed.

Lemma step_stream_event (a : App) (i : Input) (id : nat) :
  match i with
  | Data id' _ | End_ id' | Error id' => id' = id
  | _ => False
  end ->
  connections (step a i) = alter (conn_after i) id (connections a).
Proof.
  intros Hid.
  destruct i as [q|id' n|id'|id'|path content|path]; try contradiction;
    subst id'; cbn [step];
    (destruct (connections a !! id) as [[r [d|]]|] eqn:Hc;
     [ | rewrite (alter_at _ _ _ _ Hc); cbn; rewrite list_insert_id by exact Hc;
         reflexivity
       | rewrite alter_outside by exact Hc; reflexivity ]);
    rewrite (alter_at _ _ _ _ Hc); unfold conn_after; cbn [download res].
  - destruct (state (fileStream d)) eqn:Hs;
      [destruct (take_bytes n (remaining (fileStream d))) eqn:Ht|..];
      try (rewrite list_insert_id by exact Hc; reflexivity).
    reflexivity.
  - destruct (state (fileStream d)) eqn:Hs;
      [destruct (remaining (fileStream d)) eqn:Hr|..];
      try (rewrite list_insert_id by exact Hc; reflexivity).
    reflexivity.
  - destruct (state (fileStream d)) eqn:Hs;
      try (rewrite list_insert_id by exact Hc; reflexivity).
    reflexivity.
Qed.

Lemma step_file_system (a : App) (i : Input) :
  match i with WriteFile _ _ | Unlink _ => True | _ => False end ->
  connections (step a i) = connections a /\ self (step a i) = self a.
Proof. destruct i; try contradiction; intros _; split; reflexivity. Qed.

(** The counter moves only on the ['end'] of a stream, and then by one. *)
Lemma step_downloadCount (a : App) (i : Input) :
  getDownloadCount (self (step a i))
  = getDownloadCount (self a) + (if completes a i then 1 else 0).
Proof.
  unfold getDownloadCount.
  destruct i as [q|id n|id|id|path content|path]; cbn [step completes];
    rewrite ?N.add_0_r; try reflexivity.
  - destruct (get_download_connections q a) as (c & _ & Hself & _).
    rewrite Hself. reflexivity.
  - destruct (connections a !! id) as [[r [d|]]|]; try reflexivity.
    destruct (state (fileStream d));
      [destruct (take_bytes n (remaining (fileStream d)))|..]; reflexivity.
  - destruct (connections a !! id) as [[r [d|]]|];
      rewrite ?N.add_0_r; try reflexivity.
    destruct (state (fileStream d));
      [destruct (remaining (fileStream d))|..];
      rewrite ?N.add_0_r; reflexivity.
  - destruct (connections a !! id) as [[r [d|]]|]; try reflexivity.
    destruct (state (fileStream d)); reflexivity.
Qed.

(** *** Requests and streams stay in agreement *)


Lemma conn_after_coherent (i : Input) (c : Connection) :
  coherent c -> coherent (conn_after i c).
Proof.
  unfold coherent, conn_after. destruct c as [r [d|]]; cbn; [|tauto].
  destruct (state (fileStream d)) eqn:Hs;
    destruct i as [q|id n|id|id|path content|path]; cbn; rewrite ?Hs;
    try tauto.
  - destruct (take_bytes n (remaining (fileStream d))); cbn; rewrite ?Hs;
      tauto.
  - destruct (remaining (fileStream d)); cbn; rewrite ?Hs; tauto.
  - intros [Hfin Hst]. destruct (headersSent r); cbn; [left; exact Hfin|].
    right. destruct (hasHeader "Content-Type" (status 500 r)); discriminate.
Qed.


(** A stream event adds one ended stream exactly when it is an ['end']
    that the stream can emit. *)
Lemma conn_after_stream_ended (a : App) (i : Input) (id : nat)
    (c : Connection) :
  match i with
  | Data id' _ | End_ id' | Error id' => id' = id
  | _ => False
  end ->
  connections a !! id = Some c ->
  stream_ended c = true /\ stream_ended (conn_after i c) = true
                        /\ completes a i = false
  \/ stream_ended c = false
     /\ stream_ended (conn_after i c) = completes a i.
Proof.
  intros Hid Hc.
  destruct i as [q|id' n|id'|id'|path content|path]; try contradiction;
    subst id'; unfold completes, stream_ended, conn_after; rewrite ?Hc;
    destruct c as [r [d|]]; cbn; try (right; split; reflexivity);
    destruct (state (fileStream d)) eqn:Hs; cbn; rewrite ?Hs;
    try (right; split; reflexivity);
    try (left; repeat split; reflexivity).
  - destruct (take_bytes n (remaining (fileStream d))); cbn; rewrite ?Hs;
      right; split; reflexivity.
  - destruct (remaining (fileStream d)); cbn; rewrite ?Hs;
      right; split; reflexivity.
Qed.

Lemma completes_only_known (a : App) (i : Input) (id : nat) :
  match i with
  | Data id' _ | End_ id' | Error id' => id' = id
  | _ => False
  end ->
  connections a !! id = None -> completes a i = false.
Proof.
  intros Hid Hc.
  destruct i; try contradiction; subst; cbn; rewrite ?Hc; reflexivity.
Qed.

Lemma counted_boot (options : ServerOptions) (files : FS) :
  counted (boot options files).
Proof. split; [constructor|reflexivity]. Qed.

Lemma counted_step (a : App) (i : Input) :
  counted a -> counted (step a i).
Proof.
  intros [Hcoh Hcount]. unfold counted.
  rewrite step_downloadCount, Hcount.
  destruct i as [q|id n|id|id|path content|path].
  - cbn [step completes].
    destruct (get_download_connections q a) as (c & -> & _ & Hc & Hend).
    split; [apply Forall_app; split;
            [exact Hcoh|repeat constructor; exact Hc]|].
    rewrite count_if_app. unfold count_if at 3. cbn. rewrite Hend. cbn. lia.
  - rewrite (step_stream_event a _ id) by reflexivity.
    split; [apply Forall_alter; [exact Hcoh|];
            intros c _ Hc; apply conn_after_coherent; exact Hc|].
    destruct (connections a !! id) as [c|] eqn:Hc.
    + pose proof (count_if_alter stream_ended (conn_after (Data id n))
                    _ _ _ Hc) as Hcnt.
      destruct (conn_after_stream_ended a (Data id n) id c eq_refl Hc)
        as [(E1 & E2 & E3)|(E1 & E2)];
        rewrite ?E1, ?E2, ?E3 in *; cbn in *; lia.
    + rewrite alter_outside by exact Hc. cbn. lia.
  - rewrite (step_stream_event a _ id) by reflexivity.
    split; [apply Forall_alter; [exact Hcoh|];
            intros c _ Hc; apply conn_after_coherent; exact Hc|].
    destruct (connections a !! id) as [c|] eqn:Hc.
    + pose proof (count_if_alter stream_ended (conn_after (End_ id))
                    _ _ _ Hc) as Hcnt.
      destruct (conn_after_stream_ended a (End_ id) id c eq_refl Hc)
        as [(E1 & E2 & E3)|(E1 & E2)];
        rewrite ?E1, ?E2, ?E3 in *; [cbn in *; lia|].
      destruct (completes a (End_ id)); cbn in *; lia.
    + rewrite alter_outside by exact Hc.
      rewrite (completes_only_known a (End_ id) id eq_refl Hc). cbn. lia.
  - rewrite (step_stream_event a _ id) by reflexivity.
    split; [apply Forall_alter; [exact Hcoh|];
            intros c _ Hc; apply conn_after_coherent; exact Hc|].
    destruct (connections a !! id) as [c|] eqn:Hc.
    + pose proof (count_if_alter stream_ended (conn_after (Error id))
                    _ _ _ Hc) as Hcnt.
      destruct (conn_after_stream_ended a (Error id) id c eq_refl Hc)
        as [(E1 & E2 & E3)|(E1 & E2)];
        rewrite ?E1, ?E2, ?E3 in *; cbn in *; lia.
    + rewrite alter_outside by exact Hc. cbn. lia.
  - cbn [step completes set_fs connections]. rewrite N.add_0_r.
    split; [exact Hcoh|reflexivity].
  - cbn [step completes set_fs connections]. rewrite N.add_0_r.
    split; [exact Hcoh|reflexivity].
Qed.

Lemma counted_run (inputs : list Input) (a : App) :
  counted a -> counted (run a inputs).
Proof.
  revert a. induction inputs as [|i inputs IH]; intros a Ha; [exact Ha|].
  cbn. apply IH, counted_step, Ha.
Qed.


(** *** What a download delivers *)







(** *** A stream that is read to its end *)








End StreamProps.

Section StreamExamples.
Import Js Utils Server Samples.






(** Three downloads whose streams interleave: the counter reads 3. *)
Example three_concurrent_downloads :
  let a := run (H := Bcrypt.tagged) open_app
             [GetDownload None; GetDownload None; GetDownload None;
              Data 0 8; Data 1 15; Data 2 4; Data 0 7; End_ 1; Data 2 11;
              End_ 0; End_ 2; End_ 1] in
  getDownloadCount (self a) = 3
  /\ count_if completed_200 (connections a) = 3%nat.
Proof. split; vm_compute; reflexivity. Qed.

(** A 401, a stream that fails before its first chunk (500), a stream that
    fails after it, a stream left half read and a file that has gone (500):
    the counter still reads 0. *)
Example failures_leave_the_counter :
  let a := run (H := Bcrypt.tagged) open_app
             [GetDownload None; Error 0;
              GetDownload None; Data 1 5; Error 1; End_ 1;
              GetDownload None; Data 2 5;
              Unlink report; GetDownload None] in
  let b := run (H := Bcrypt.tagged) protected_app
             [GetDownload None; GetDownload (Some "wrongpass"%string)] in
  getDownloadCount (self a) = 0
  /\ map (fun c => statusCode (res c)) (connections a) = [500; 200; 200; 500]
  /\ map (fun c => finished (res c)) (connections a)
     = [true; false; false; true]
  /\ getDownloadCount (self b) = 0
  /\ map (fun c => statusCode (res c)) (connections b) = [401; 401].
Proof. repeat split; vm_compute; reflexivity. Qed.

End StreamExamples.

(* ================================================================== *)
(** ** Properties of [src/tunnel.ts]: the pattern                     *)
(* ================================================================== *)

Section PatternProps.
Import Js Tunnel.

Lemma strip_prefix_app (p r : string) : strip_prefix p (p +:+ r) = Some r.
Proof.
  induction p as [|a p IH]; [destruct r; reflexivity|].
  rewrite append_cons. cbn. rewrite Ascii.eqb_refl. exact IH.
Qed.

Lemma strip_prefix_inv (p s r : string) :
  strip_prefix p s = Some r -> s = p +:+ r.
Proof.
  revert s. induction p as [|a p IH]; intros s Hs.
  - destruct s; cbn in Hs; injection Hs as <-; reflexivity.
  - destruct s as [|b s]; [discriminate Hs|]. cbn in Hs.
    destruct (Ascii.eqb_spec a b) as [->|_]; [|discriminate Hs].
    rewrite append_cons, (IH s Hs). reflexivity.
Qed.

Lemma span_label_inv (s l r : string) :
  span_label s = (l, r) ->
  s = l +:+ r /\ all_label l = true
  /\ match r with
     | String c _ => is_label_char c = false
     | EmptyString => True
     end.
Proof.
  revert l r. induction s as [|c s IH]; intros l r Hs;
    cbn [span_label] in Hs.
  - injection Hs as <- <-. repeat split.
  - destruct (is_label_char c) eqn:Hc.
    + destruct (span_label s) as [l0 r0]. injection Hs as <- <-.
      destruct (IH l0 r0 eq_refl) as (-> & Hall & Hnext).
      rewrite append_cons. cbn [all_label]. rewrite Hc, Hall.
      repeat split. exact Hnext.
    + injection Hs as <- <-. rewrite append_nil. repeat split. exact Hc.
Qed.

(** The longest run is the only one a character outside the class can
    follow. *)
Lemma span_label_app (l r : string) :
  all_label l = true ->
  match r with
  | String c _ => is_label_char c = false
  | EmptyString => True
  end ->
  span_label (l +:+ r) = (l, r).
Proof.
  intros Hall Hnext. induction l as [|c l IH].
  - rewrite append_nil. destruct r as [|c r]; [reflexivity|].
    cbn [span_label]. rewrite Hnext. reflexivity.
  - cbn [all_label] in Hall. apply andb_true_iff in Hall as [Hc Hall].
    rewrite append_cons. cbn [span_label]. rewrite Hc, (IH Hall).
    reflexivity.
Qed.

Lemma match_here_sound (s u : string) :
  match_here s = Some u -> is_url u /\ exists post, s = u +:+ post.
Proof.
  unfold match_here. intros Hm.
  destruct (strip_prefix scheme s) as [r|] eqn:Hp; [|discriminate Hm].
  destruct (span_label r) as [l r'] eqn:Hl.
  destruct l as [|c l]; [discriminate Hm|].
  destruct (strip_prefix domain r') as [post|] eqn:Hd; [|discriminate Hm].
  injection Hm as <-.
  apply strip_prefix_inv in Hp. apply strip_prefix_inv in Hd.
  destruct (span_label_inv _ _ _ Hl) as (Hr & Hall & _).
  split.
  - exists (String c l). repeat split; [exact Hall|discriminate].
  - exists post. rewrite Hp, Hr, Hd, !append_assoc. reflexivity.
Qed.

Lemma match_here_complete (u post : string) :
  is_url u -> match_here (u +:+ post) = Some u.
Proof.
  intros (l & Hall & Hne & ->). unfold match_here.
  rewrite !append_assoc, strip_prefix_app.
  rewrite (span_label_app l (domain +:+ post) Hall) by reflexivity.
  rewrite strip_prefix_app. destruct l; [contradiction|reflexivity].
Qed.

Lemma regex_match_unfold (s : string) :
  regex_match s
  = match match_here s with
    | Some url => Some url
    | None =>
        match s with
        | String _ rest => regex_match rest
        | EmptyString => None
        end
    end.
Proof. destruct s; reflexivity. Qed.

(** [output.match] returns the leftmost match of the pattern. *)
Lemma regex_match_leftmost (s u : string) :
  regex_match s = Some u -> leftmost_match s u.
Proof.
  revert u. induction s as [|c s IH]; intros u Hm;
    rewrite regex_match_unfold in Hm.
  - destruct (match_here "") eqn:Hh; [|discriminate Hm].
    injection Hm as ->. destruct (match_here_sound _ _ Hh) as [Hu [post E]].
    exists EmptyString, post. split; [exact E|]. split; [exact Hu|].
    intros; cbn; lia.
  - destruct (match_here (String c s)) as [u0|] eqn:Hh.
    + injection Hm as ->.
      destruct (match_here_sound _ _ Hh) as [Hu [post E]].
      exists EmptyString, post. split; [exact E|]. split; [exact Hu|].
      intros; cbn; lia.
    + destruct (IH u Hm) as (pre & post & E & Hu & Hleft).
      exists (String c pre), post. split; [rewrite append_cons, <- E;
                                            reflexivity|].
      split; [exact Hu|].
      intros pre' u' post' E' Hu'. destruct pre' as [|c' pre'].
      * rewrite append_nil in E'. rewrite E', match_here_complete in Hh
          by exact Hu'. discriminate Hh.
      * rewrite append_cons in E'. injection E' as _ E'.
        specialize (Hleft pre' u' post' E' Hu'). cbn. lia.
Qed.

(** [output.match] returns [null] only when the pattern matches nowhere. *)
Lemma regex_match_none (s : string) :
  regex_match s = None -> no_match s.
Proof.
  induction s as [|c s IH]; intros Hm; rewrite regex_match_unfold in Hm.
  - destruct (match_here "") eqn:Hh; [discriminate Hm|].
    intros pre u post E Hu. destruct pre; [|discriminate E].
    rewrite append_nil in E. rewrite E, match_here_complete in Hh
      by exact Hu. discriminate Hh.
  - destruct (match_here (String c s)) as [u0|] eqn:Hh; [discriminate Hm|].
    intros pre u post E Hu. destruct pre as [|c' pre].
    + rewrite append_nil in E. rewrite E, match_here_complete in Hh
        by exact Hu. discriminate Hh.
    + rewrite append_cons in E. injection E as _ E.
      exact (IH Hm pre u post E Hu).
Qed.

Lemma regex_match_truthy (s u : string) :
  regex_match s = Some u -> truthy (Some u) = true.
Proof.
  intros Hm. destruct (regex_match_leftmost _ _ Hm)
    as (_ & _ & _ & (l & _ & _ & ->) & _).
  reflexivity.
Qed.

End PatternProps.

(* ================================================================== *)
(** ** Properties of [src/tunnel.ts]: one call of [start()]           *)
(* ================================================================== *)

Section TunnelProps.
Import Js Tunnel Samples.

Lemma parseForUrl_first (output url : string) (r : Run) :
  truthy (tunnelUrl (this r)) = false ->
  regex_match output = Some url ->
  parseForUrl output r
  = set_promise (resolve url (promise r))
      (set_this {| options := options (this r); process := process (this r);
                   tunnelUrl := Some url |} r).
Proof.
  intros Hnone Hm. unfold parseForUrl. rewrite Hm, Hnone. reflexivity.
Qed.

Lemma parseForUrl_no_match (output : string) (r : Run) :
  regex_match output = None -> parseForUrl output r = r.
Proof. intros Hm. unfold parseForUrl. rewrite Hm. reflexivity. Qed.

Lemma parseForUrl_later (output : string) (r : Run) :
  truthy (tunnelUrl (this r)) = true -> parseForUrl output r = r.
Proof.
  intros Hurl. unfold parseForUrl. rewrite Hurl.
  destruct (regex_match output); reflexivity.
Qed.

(** Once a URL is stored, only [stop()] touches the tunnel object. *)
Lemma step_keeps_tunnel (r : Run) (e : Event) :
  truthy (tunnelUrl (this r)) = true -> is_stop e = false ->
  this (step r e) = this r.
Proof.
  intros Hurl Hstop.
  destruct e as [data|data|message|code| |]; cbn [step];
    try discriminate Hstop.
  - rewrite parseForUrl_later by exact Hurl. reflexivity.
  - rewrite parseForUrl_later by exact Hurl. reflexivity.
  - reflexivity.
  - rewrite Hurl, andb_false_r. reflexivity.
  - rewrite Hurl. reflexivity.
Qed.

Lemma run_keeps_tunnel (events : list Event) (r : Run) :
  truthy (tunnelUrl (this r)) = true ->
  forallb (fun e => negb (is_stop e)) events = true ->
  this (run r events) = this r.
Proof.
  revert r. induction events as [|e events IH]; intros r Hurl Hstop;
    [reflexivity|].
  cbn [forallb] in Hstop. apply andb_true_iff in Hstop as [He Hrest].
  apply negb_true_iff in He.
  pose proof (step_keeps_tunnel r e Hurl He) as Hstep.
  cbn [run fold_left]. fold (run (step r e) events).
  rewrite IH; [exact Hstep| rewrite Hstep; exact Hurl | exact Hrest].
Qed.

(** Output that arrives after the URL was stored changes neither the URL
    nor the promise. *)
Lemma output_after_url (chunks : list (Channel * string)) (r : Run) :
  truthy (tunnelUrl (this r)) = true ->
  this (run r (map output_event chunks)) = this r
  /\ promise (run r (map output_event chunks)) = promise r.
Proof.
  revert r. induction chunks as [|[ch data] chunks IH]; intros r Hurl;
    [split; reflexivity|].
  cbn [map run fold_left]. fold (run (step r (output_event (ch, data)))
                                   (map output_event chunks)).
  assert (Hstep : this (step r (output_event (ch, data))) = this r
                  /\ promise (step r (output_event (ch, data))) = promise r).
  { destruct ch; cbn [output_event step];
      rewrite parseForUrl_later by exact Hurl; split; reflexivity. }
  destruct Hstep as [Ht Hp].
  destruct (IH (step r (output_event (ch, data)))) as [Ht' Hp'];
    [rewrite Ht; exact Hurl|].
  rewrite Ht', Hp', Ht, Hp. split; reflexivity.
Qed.

Lemma outputs_until_url (chunks : list (Channel * string)) (r : Run) :
  truthy (tunnelUrl (this r)) = false -> promise r = Pending ->
  let r' := run r (map output_event chunks) in
  match first_match chunks with
  | Some url => tunnelUrl (this r') = Some url /\ promise r' = Fulfilled url
  | None => this r' = this r /\ promise r' = Pending
                                /\ stderr r' = stderr r +:+ captured chunks
  end
  /\ process (this r') = process (this r).
Proof.
  revert r. induction chunks as [|[ch data] chunks IH]; intros r Hnone Hpend.
  - cbn. rewrite append_empty_r. repeat split; assumption.
  - cbn [map run fold_left first_match].
    fold (run (step r (output_event (ch, data))) (map output_event chunks)).
    destruct (regex_match data) as [url|] eqn:Hm.
    + set (r1 := step r (output_event (ch, data))).
      assert (H1 : tunnelUrl (this r1) = Some url
                   /\ promise r1 = Fulfilled url
                   /\ process (this r1) = process (this r)).
      { subst r1. destruct ch; cbn [output_event step];
          rewrite parseForUrl_first with (url := url);
          try assumption; cbn; rewrite ?Hpend; repeat split. }
      destruct H1 as (Hu & Hp & Hproc).
      destruct (output_after_url chunks r1) as [Ht' Hp'].
      { rewrite Hu. eapply regex_match_truthy. exact Hm. }
      cbn zeta. rewrite Ht', Hp'. repeat split; assumption.
    + set (r1 := step r (output_event (ch, data))).
      assert (H1 : this r1 = this r /\ promise r1 = Pending
                   /\ stderr r1
                      = stderr r +:+ captured [(ch, data)]).
      { subst r1. destruct ch; cbn [output_event step captured];
          rewrite parseForUrl_no_match by exact Hm; cbn;
          rewrite ?append_empty_r; repeat split; assumption. }
      destruct H1 as (Ht & Hp & Herr).
      specialize (IH r1). rewrite Ht in IH. specialize (IH Hnone Hp).
      cbn zeta in *. destruct IH as [IH Hproc]. split; [|exact Hproc].
      destruct (first_match chunks) as [url|]; [exact IH|].
      destruct IH as (Ht' & Hp' & Herr'). repeat split; try assumption.
      rewrite Herr', Herr. destruct ch; cbn [captured];
        rewrite ?append_empty_r, ?append_assoc; reflexivity.
Qed.

(** The chunk that gave the URL, and the chunks before it. *)
Lemma first_match_origin (chunks : list (Channel * string)) (url : string) :
  first_match chunks = Some url ->
  exists before ch data after,
    chunks = before ++ (ch, data) :: after
    /\ Forall (fun c => no_match (snd c)) before
    /\ leftmost_match data url.
Proof.
  induction chunks as [|[ch data] chunks IH]; intros Hf; [discriminate Hf|].
  cbn [first_match] in Hf. destruct (regex_match data) as [u|] eqn:Hm.
  - injection Hf as ->. exists [], ch, data, chunks.
    split; [reflexivity|]. split; [constructor|].
    apply regex_match_leftmost. exact Hm.
  - destruct (IH Hf) as (before & ch' & data' & after & -> & Hno & Hleft).
    exists ((ch, data) :: before), ch', data', after.
    split; [reflexivity|]. split; [|exact Hleft].
    constructor; [apply regex_match_none; exact Hm|exact Hno].
Qed.

(** C5. For every sequence of output chunks on the two streams after
    [start()], the tunnel URL is the match found in the first chunk that
    has one, and the promise is resolved with it (it is pending while no
    chunk matched); that match is the leftmost one in its chunk, and no
    earlier chunk holds a match; a call of [stop()] then resets both the
    process handle and the URL.  Once a URL is stored no event other than
    a call of [stop()] changes it, and [stop()] on an active subprocess
    resets both the process handle and the URL. *)
Theorem first_url_match_is_honoured :
  (forall (o : TunnelOptions) (chunks : list (Channel * string)),
     let r := run (start (new_CloudflareTunnel o)) (map output_event chunks)
     in
     getUrl (this r) = first_match chunks
     /\ promise r = match first_match chunks with
                    | Some url => Fulfilled url
                    | None => Pending
                    end
     /\ (forall url, first_match chunks = Some url ->
          exists before ch data after,
            chunks = before ++ (ch, data) :: after
            /\ Forall (fun c => no_match (snd c)) before
            /\ leftmost_match data url)
     /\ process (this (step r Stop)) = None
     /\ getUrl (this (step r Stop)) = None)
  /\ (forall (r : Run) (url : string) (events : list Event),
        tunnelUrl (this r) = Some url -> truthy (Some url) = true ->
        forallb (fun e => negb (is_stop e)) events = true ->
        getUrl (this (run r events)) = Some url)
  /\ (forall (r : Run) (child : ChildProcess),
        process (this r) = Some child ->
        process (this (step r Stop)) = None
        /\ getUrl (this (step r Stop)) = None).
Proof.
  split; [|split].
  - intros o chunks r.
    destruct (outputs_until_url chunks (start (new_CloudflareTunnel o))
                eq_refl eq_refl) as [Hrun Hproc].
    fold r in Hrun, Hproc. unfold getUrl.
    assert (Hstop : process (this (step r Stop)) = None
                    /\ tunnelUrl (this (step r Stop)) = None).
    { cbn [step]. unfold stop. rewrite Hproc. split; reflexivity. }
    destruct (first_match chunks) as [url|] eqn:Hf.
    + destruct Hrun as [Hu Hp]. split; [exact Hu|]. split; [exact Hp|].
      split; [|exact Hstop].
      intros url' E. injection E as <-.
      apply first_match_origin. exact Hf.
    + destruct Hrun as (Ht & Hp & _). rewrite Ht.
      split; [reflexivity|]. split; [exact Hp|].
      split; [discriminate|exact Hstop].
  - intros r url events Hu Htruthy Hstop. unfold getUrl.
    rewrite run_keeps_tunnel; [exact Hu| rewrite Hu; exact Htruthy|exact Hstop].
  - intros r child Hproc. cbn [step]. unfold stop. rewrite Hproc.
    split; reflexivity.
Qed.

Lemma tunnel_run_app (r : Run) (l1 l2 : list Event) :
  run r (l1 ++ l2) = run (run r l1) l2.
Proof. unfold run. apply fold_left_app. Qed.

(** From [start()] on: output without any match, then an exit with a code
    other than 0, rejects with the code and all the stderr text. *)
Lemma exit_after_output_without_url (o : TunnelOptions)
    (chunks : list (Channel * string)) (code : option Z) :
  first_match chunks = None -> code <> Some 0%Z ->
  promise (run (start (new_CloudflareTunnel o))
             (map output_event chunks ++ [Exit code]))
  = Rejected (exit_message code (captured chunks)).
Proof.
  intros Hnone Hcode. rewrite tunnel_run_app.
  destruct (outputs_until_url chunks (start (new_CloudflareTunnel o))
              eq_refl eq_refl) as [Hrun _].
  rewrite Hnone in Hrun. destruct Hrun as (Ht & Hp & Herr).
  cbn [run fold_left step]. rewrite Ht, Hp, Herr. cbn [start this tunnelUrl
    new_CloudflareTunnel truthy stderr andb negb].
  rewrite append_nil.
  destruct code as [[|z|z]|]; try reflexivity. contradiction.
Qed.

(** C4, as the code has it.  When the subprocess exits with a code other
    than 0 (a missing code included) while no URL is stored and the promise
    of [start()] is still pending, the promise is rejected with the message
    "cloudflared exited with code", the code, and, when stderr text was
    captured, a colon and that text.  An exit with code 0 rejects nothing:
    the promise stays as it was. *)
Theorem exit_before_url_rejects_on_failure (r : Run) (code : option Z)
    (Hpending : promise r = Pending)
    (Hnourl : truthy (tunnelUrl (this r)) = false) :
  (code <> Some 0%Z ->
     promise (step r (Exit code)) = Rejected (exit_message code (stderr r))
     /\ (exists pre post,
           exit_message code (stderr r) = pre +:+ show_code code +:+ post)
     /\ (exists pre, exit_message code (stderr r) = pre +:+ stderr r))
  /\ (code = Some 0%Z -> promise (step r (Exit code)) = Pending).
Proof.
  split.
  - intros Hcode. split; [|split].
    + cbn [step]. rewrite Hnourl, Hpending.
      destruct code as [[|p|p]|]; try reflexivity. contradiction.
    + exists "cloudflared exited with code "%string. eexists.
      unfold exit_message. reflexivity.
    + unfold exit_message. destruct (stderr r) as [|c t].
      * eexists. cbn [truthy String.eqb negb]. rewrite !append_empty_r.
        reflexivity.
      * exists ("cloudflared exited with code " +:+ show_code code +:+ ": ").
        change (truthy (Some (String c t))) with true. cbv iota.
        rewrite !append_assoc. reflexivity.
  - intros ->. cbn [step]. exact Hpending.
Qed.

End TunnelProps.

Section TunnelExamples.
Import Js Tunnel Samples.

Example announcement_first_url :
  first_match announcement
  = Some "https://blue-sky-42.trycloudflare.com"%string.
Proof. vm_compute. reflexivity. Qed.

Lemma first_url_match_is_honoured_witness :
  (getUrl (this (run started_tunnel (map output_event announcement)))
   = first_match announcement
   /\ promise (run started_tunnel (map output_event announcement))
      = match first_match announcement with
        | Some url => Fulfilled url
        | None => Pending
        end)
  /\ getUrl (this (run (run started_tunnel (map output_event announcement))
                  [Stderr "https://late.trycloudflare.com"; Exit (Some 1%Z);
                   Timeout]))
  = Some "https://blue-sky-42.trycloudflare.com"%string
  /\ process (this (step (run started_tunnel (map output_event announcement))
                      Stop)) = None
  /\ getUrl (this (step (run started_tunnel (map output_event announcement))
                     Stop)) = None.
Proof.
  pose proof first_url_match_is_honoured as (Hfirst & Hkeep & Hstop).
  split; [|split].
  - destruct (Hfirst {| options_port := 3000 |} announcement)
      as (Hurl & Hpromise & _).
    split; [exact Hurl|exact Hpromise].
  - apply Hkeep; reflexivity.
  - apply (Hstop (run started_tunnel (map output_event announcement))
             {| command := "cloudflared";
                args := ["tunnel"; "--url"; "http://localhost:3000"] |}).
    reflexivity.
Defined.

Lemma exit_before_url_rejects_on_failure_witness :
  promise (step (run started_tunnel [Stderr "address in use"])
             (Exit (Some 1%Z)))
  = Rejected "cloudflared exited with code 1: address in use"
  /\ promise (step started_tunnel (Exit (Some 0%Z))) = Pending.
Proof.
  split.
  - pose proof (exit_before_url_rejects_on_failure
                  (run started_tunnel [Stderr "address in use"])
                  (Some 1%Z) eq_refl eq_refl) as [Hfail _].
    apply Hfail. discriminate.
  - pose proof (exit_before_url_rejects_on_failure started_tunnel
                  (Some 0%Z) eq_refl eq_refl) as [_ Hzero].
    apply Hzero. reflexivity.
Defined.

(** C4, as stated, fails: the subprocess exits with code 0 before any URL
    was seen, and [start()] is not rejected; it stays pending until the
    30 s timer rejects it with the timeout message, which names neither
    the exit code nor the captured text. *)
Lemma exit_zero_before_url_not_rejected :
  let r := run started_tunnel [Stderr "nothing to do"; Exit (Some 0%Z)] in
  getUrl (this r) = None
  /\ exits r = [Some 0%Z]
  /\ promise r = Pending
  /\ promise (step r Timeout) = Rejected timeout_message
  /\ includes timeout_message "nothing to do" = false.
Proof. repeat split; vm_compute; reflexivity. Qed.

End TunnelExamples.

(* ================================================================== *)
(** ** Further properties of [src/server.ts]: events and failures     *)
(* ================================================================== *)

Section EventProps.
Import Js Utils Server ServerEvents Samples.
Context `{Bcrypt.Impl}.




Lemma run_invariant (P : App -> Prop) :
  (forall a i, P a -> P (step a i)) ->
  forall inputs a, P a -> P (run a inputs).
Proof.
  intros Hstep inputs. induction inputs as [|i inputs IH]; intros a Ha;
    [exact Ha|].
  cbn. apply IH, Hstep, Ha.
Qed.

Lemma stream_file_unreadable (a : App) :
  fs a !! filePath (self a) = None ->
  stream_file a
  = add_connection {| res := server_error new_Response; download := None |}
      a.
Proof.
  intros Hfile. unfold stream_file, getFileInfo. rewrite Hfile. reflexivity.
Qed.

(** The three ways a request is taken in. *)
Lemma get_download_cases (q : option string) (a : App) :
  (exists text,
     check_password (self a) q = Denied text
     /\ get_download q a = add_connection (unauthorized text) a)
  \/ (check_password (self a) q = Granted
      /\ fs a !! filePath (self a) = None
      /\ get_download q a
         = add_connection
             {| res := server_error new_Response; download := None |} a)
  \/ (exists content,
        check_password (self a) q = Granted
        /\ fs a !! filePath (self a) = Some content
        /\ get_download q a
           = add_connection
               {| res := download_head (basename (filePath (self a)))
                           (N.of_nat (String.length content));
                  download :=
                    Some {| fileInfo :=
                              {| name := basename (filePath (self a));
                                 size := N.of_nat (String.length content);
                                 sizeFormatted :=
                                   formatBytes
                                     (N.of_nat (String.length content)) |};
                            downloadedBytes := 0;
                            fileStream := {| remaining := content;
                                             state := Flowing |} |} |}
               (emit downloadStarted a)).
Proof.
  unfold get_download. destruct (check_password (self a) q) as [|text].
  - destruct (fs a !! filePath (self a)) as [content|] eqn:Hfile.
    + right. right. exists content. split; [reflexivity|].
      split; [reflexivity|]. apply stream_file_readable. exact Hfile.
    + right. left. split; [reflexivity|]. split; [reflexivity|].
      apply stream_file_unreadable. exact Hfile.
  - left. exists text. split; reflexivity.
Qed.

Lemma step_emitted (a : App) (i : Input) :
  emitted (step a i) = emitted a ++ events_of a i.
Proof.
  destruct i as [q|id n|id|id|path content|path]; cbn [step events_of];
    try (cbn; rewrite app_nil_r; reflexivity).
  - destruct (get_download_cases q a)
      as [(text & -> & ->)|[(-> & -> & ->)|(content & -> & -> & ->)]];
      cbn; rewrite ?app_nil_r; reflexivity.
  - destruct (connections a !! id) as [[r [d|]]|];
      try (cbn; rewrite app_nil_r; reflexivity).
    unfold conn_events. cbn [download].
    destruct (state (fileStream d));
      [destruct (take_bytes n (remaining (fileStream d)))|..];
      cbn; rewrite ?app_nil_r; reflexivity.
  - destruct (connections a !! id) as [[r [d|]]|];
      try (cbn; rewrite app_nil_r; reflexivity).
    unfold conn_events. cbn [download].
    destruct (state (fileStream d));
      [destruct (remaining (fileStream d))|..];
      cbn; rewrite ?app_nil_r; reflexivity.
  - destruct (connections a !! id) as [[r [d|]]|];
      try (cbn; rewrite app_nil_r; reflexivity).
    unfold conn_events. cbn [download].
    destruct (state (fileStream d)); cbn; rewrite ?app_nil_r; reflexivity.
Qed.




(** *** Case analysis on a stream event reaching a request *)

Ltac stream_cases c i :=
  let r := fresh "r" in
  let d := fresh "d" in
  let Hs := fresh "Hs" in
  unfold conn_events, conn_after, stream_opened, stream_errored,
    stream_ended;
  destruct c as [r [d|]]; cbn [download res];
  [destruct (state (fileStream d)) eqn:Hs;
   destruct i as [?q|?id ?n|?id|?id|?path ?content|?path];
   repeat match goal with
     | |- context [match take_bytes ?n ?s with _ => _ end] =>
         destruct (take_bytes n s)
     | |- context [match remaining ?st with _ => _ end] =>
         destruct (remaining st)
     end;
   cbn [download res fileStream state set_stream]; rewrite ?Hs
  |destruct i];
  cbn; try reflexivity; try lia.

Lemma conn_after_opened (i : Input) (c : Connection) :
  stream_opened (conn_after i c) = stream_opened c.
Proof. stream_cases c i. Qed.

Lemma conn_events_not_started (count : N) (i : Input) (c : Connection) :
  count_if is_started (conn_events count i c) = 0%nat.
Proof. stream_cases c i. Qed.

Lemma conn_events_errored (count : N) (i : Input) (c : Connection) :
  (count_if is_error (conn_events count i c)
   + (if stream_errored c then 1 else 0)
   = if stream_errored (conn_after i c) then 1 else 0)%nat.
Proof. stream_cases c i. Qed.

Lemma conn_events_ended (count : N) (i : Input) (c : Connection) :
  (count_if is_complete (conn_events count i c)
   + (if stream_ended c then 1 else 0)
   = if stream_ended (conn_after i c) then 1 else 0)%nat.
Proof. stream_cases c i. Qed.


Lemma complete_counts_app (l1 l2 : list Emitted) :
  complete_counts (l1 ++ l2) = complete_counts l1 ++ complete_counts l2.
Proof.
  induction l1 as [|e l1 IH]; [reflexivity|].
  destruct e; cbn; rewrite IH; reflexivity.
Qed.

Lemma events_of_complete_counts (a : App) (i : Input) :
  complete_counts (events_of a i)
  = if completes a i then [getDownloadCount (self a) + 1] else [].
Proof.
  unfold getDownloadCount.
  destruct i as [q|id n|id|id|path content|path];
    cbn [events_of completes]; try reflexivity.
  - destruct (check_password (self a) q);
      destruct (fs a !! filePath (self a)); reflexivity.
  - destruct (connections a !! id) as [[r [d|]]|]; try reflexivity.
    unfold conn_events. cbn [download].
    destruct (state (fileStream d)); try reflexivity.
    destruct (take_bytes n (remaining (fileStream d))); reflexivity.
  - destruct (connections a !! id) as [[r [d|]]|]; try reflexivity.
    unfold conn_events. cbn [download].
    destruct (state (fileStream d)); try reflexivity.
    destruct (remaining (fileStream d)); reflexivity.
  - destruct (connections a !! id) as [[r [d|]]|]; try reflexivity.
    unfold conn_events. cbn [download].
    destruct (state (fileStream d)); reflexivity.
Qed.


(** *** The events of a run *)


Lemma accounting_stream_event (a : App) (i : Input) (id : nat) :
  match i with
  | Data id' _ | End_ id' | Error id' => id' = id
  | _ => False
  end ->
  (count_if is_started (events_of a i)
   + count_if stream_opened (connections a)
   = count_if stream_opened (connections (step a i)))%nat
  /\ (count_if is_error (events_of a i)
      + count_if stream_errored (connections a)
      = count_if stream_errored (connections (step a i)))%nat
  /\ (count_if is_complete (events_of a i)
      + count_if stream_ended (connections a)
      = count_if stream_ended (connections (step a i)))%nat.
Proof.
  intros Hid. rewrite (step_stream_event a i id Hid).
  assert (Hev : events_of a i
                = match connections a !! id with
                  | Some c => conn_events (downloadCount (self a)) i c
                  | None => []
                  end).
  { destruct i; try contradiction; subst; reflexivity. }
  rewrite Hev. destruct (connections a !! id) as [c|] eqn:Hc.
  - pose proof (count_if_alter stream_opened (conn_after i) _ _ _ Hc) as H1.
    pose proof (count_if_alter stream_errored (conn_after i) _ _ _ Hc) as H2.
    pose proof (count_if_alter stream_ended (conn_after i) _ _ _ Hc) as H3.
    rewrite conn_after_opened in H1.
    pose proof (conn_events_not_started (downloadCount (self a)) i c) as E1.
    pose proof (conn_events_errored (downloadCount (self a)) i c) as E2.
    pose proof (conn_events_ended (downloadCount (self a)) i c) as E3.
    destruct (stream_opened c), (stream_errored c), (stream_ended c),
      (stream_errored (conn_after i c)), (stream_ended (conn_after i c));
      lia.
  - rewrite alter_outside by exact Hc. repeat split; reflexivity.
Qed.

Lemma accounting_step (a : App) (i : Input) :
  (count_if is_started (events_of a i)
   + count_if stream_opened (connections a)
   = count_if stream_opened (connections (step a i)))%nat
  /\ (count_if is_error (events_of a i)
      + count_if stream_errored (connections a)
      = count_if stream_errored (connections (step a i)))%nat
  /\ (count_if is_complete (events_of a i)
      + count_if stream_ended (connections a)
      = count_if stream_ended (connections (step a i)))%nat.
Proof.
  destruct i as [q|id n|id|id|path content|path];
    try (apply (accounting_stream_event a _ id); reflexivity);
    try (repeat split; reflexivity).
  cbn [step events_of].
  destruct (get_download_cases q a)
    as [(text & -> & ->)|[(-> & -> & ->)|(content & -> & -> & ->)]];
    cbn [add_connection connections emit]; rewrite !count_if_app;
    repeat split; cbn; lia.
Qed.

Lemma accounting_run (options : ServerOptions) (files : FS)
    (inputs : list Input) :
  let a := run (boot options files) inputs in
  count_if is_started (emitted a) = count_if stream_opened (connections a)
  /\ count_if is_error (emitted a) = count_if stream_errored (connections a)
  /\ count_if is_complete (emitted a) = count_if stream_ended (connections a).
Proof.
  apply (run_invariant
           (fun a =>
              count_if is_started (emitted a)
              = count_if stream_opened (connections a)
              /\ count_if is_error (emitted a)
                 = count_if stream_errored (connections a)
              /\ count_if is_complete (emitted a)
                 = count_if stream_ended (connections a)));
    [|repeat split; reflexivity].
  intros a i (H1 & H2 & H3).
  destruct (accounting_step a i) as (S1 & S2 & S3).
  rewrite step_emitted, !count_if_app. repeat split; lia.
Qed.

(** X1. In every run of the server the ['downloadComplete'] events carry
    the counts 1, 2, 3, ... in the order they are emitted, up to the
    current value of [getDownloadCount]: no count is skipped or repeated. *)
Theorem downloadComplete_counts_in_order
    (options : ServerOptions) (files : FS) (inputs : list Input) :
  let a := run (boot options files) inputs in
  complete_counts (emitted a)
  = map N.of_nat (seq 1 (N.to_nat (getDownloadCount (self a)))).
Proof.
  apply (run_invariant
           (fun a => complete_counts (emitted a)
                     = map N.of_nat
                         (seq 1 (N.to_nat (getDownloadCount (self a))))));
    [|reflexivity].
  intros a i Hinv.
  rewrite step_emitted, complete_counts_app, Hinv,
    events_of_complete_counts, step_downloadCount.
  destruct (completes a i).
  - replace (N.to_nat (getDownloadCount (self a) + 1))
      with (S (N.to_nat (getDownloadCount (self a)))) by lia.
    rewrite seq_S, map_app. cbn [map]. do 3 f_equal. lia.
  - rewrite N.add_0_r, app_nil_r. reflexivity.
Qed.


(** X3. In every run of the server ['downloadStarted'] was emitted once
    per request whose stream was opened (none for a request answered 401
    or answered 500 for a missing file), ['downloadError'] once per stream
    that failed, and ['downloadComplete'] once per stream that ended,
    which is the value of [getDownloadCount]. *)
Theorem events_account_for_streams
    (options : ServerOptions) (files : FS) (inputs : list Input) :
  let a := run (boot options files) inputs in
  count_if is_started (emitted a) = count_if stream_opened (connections a)
  /\ count_if is_error (emitted a) = count_if stream_errored (connections a)
  /\ count_if is_complete (emitted a) = count_if stream_ended (connections a)
  /\ N.of_nat (count_if is_complete (emitted a))
     = getDownloadCount (self a).
Proof.
  intros a.
  destruct (accounting_run options files inputs) as (H1 & H2 & H3).
  fold a in H1, H2, H3.
  split; [exact H1|]. split; [exact H2|]. split; [exact H3|].
  destruct (counted_run inputs _ (counted_boot options files))
    as [_ Hcount].
  fold a in Hcount. rewrite Hcount, H3. reflexivity.
Qed.


End EventProps.

Section EventExamples.
Import Js Utils Server ServerEvents Samples.


End EventExamples.

(* ================================================================== *)
(** ** Further properties of [src/server.ts]: the listener            *)
(* ================================================================== *)

Section LifecycleProps.
Import Js Utils Server Samples.

(** X5. [start] resolves only with the requested port or, after a conflict
    on it, with the next one; the port it resolves with was free, and the
    server then holds it in its [port] field and in a listening listener.
    When [start] does not resolve, the server holds the listener it had
    before or one that is not listening.  The counter, the password hash
    and the file path are never touched. *)
Theorem start_binds_requested_or_next (net : Net) (s : FileServer) :
  match snd (start net s) with
  | StartResolved p =>
      (p = port s
       \/ (p = port s + 1 /\ net (port s) = EmitsError "EADDRINUSE"))
      /\ net p = Listens
      /\ port (fst (start net s)) = p
      /\ server (fst (start net s))
         = Some {| bound := p; listening := true |}
  | StartRejected _ | StartUncaught _ =>
      server (fst (start net s)) = server s
      \/ exists b, server (fst (start net s))
                   = Some {| bound := b; listening := false |}
  end
  /\ getDownloadCount (fst (start net s)) = getDownloadCount s
  /\ passwordHash (fst (start net s)) = passwordHash s
  /\ filePath (fst (start net s)) = filePath s.
Proof.
  unfold start.
  destruct (net (port s)) as [|code|e] eqn:Hfirst; cbn.
  - rewrite Hfirst. repeat split. left. reflexivity.
  - destruct (String.eqb_spec code "EADDRINUSE") as [->|Hcode]; cbn.
    + destruct (net (port s + 1)) as [|code'|e'] eqn:Hnext; cbn.
      * rewrite Hnext. repeat split. right. split; reflexivity.
      * repeat split. right. eexists. reflexivity.
      * repeat split. right. eexists. reflexivity.
    + repeat split. right. eexists. reflexivity.
  - repeat split. left. reflexivity.
Qed.

(** X6. After [stop] the server holds no listening listener, whatever its
    state before, and [stop] changes nothing else: the port, the counter,
    the password hash, the file path and the port the listener was bound
    to stay as they were. *)
Theorem stop_closes_the_listener (s : FileServer) :
  (forall l, server (fst (stop s)) = Some l -> listening l = false)
  /\ (server s = None <-> server (fst (stop s)) = None)
  /\ (forall l, server s = Some l ->
        exists l', server (fst (stop s)) = Some l' /\ bound l' = bound l)
  /\ port (fst (stop s)) = port s
  /\ getDownloadCount (fst (stop s)) = getDownloadCount s
  /\ passwordHash (fst (stop s)) = passwordHash s
  /\ filePath (fst (stop s)) = filePath s.
Proof.
  unfold stop, close.
  destruct (server s) as [[b []]|] eqn:Hserver; cbn; rewrite ?Hserver;
    (split; [intros l E; try discriminate E; injection E as <-;
             reflexivity|]);
    (split; [split; intros E; discriminate E || reflexivity|]);
    (split; [intros l E; try discriminate E; injection E as <-;
             eexists; split; reflexivity|]);
    repeat split.
Qed.

Lemma stop_closes_the_listener_witness :
  let s := fst (start one_port_taken (self open_app)) in
  server s = Some {| bound := 3001; listening := true |}
  /\ exists l', server (fst (stop s)) = Some l' /\ bound l' = 3001
                /\ listening l' = false.
Proof.
  cbv zeta. split; [reflexivity|].
  destruct (stop_closes_the_listener
              (fst (start one_port_taken (self open_app))))
    as (Hclosed & _ & Hbound & _).
  destruct (Hbound {| bound := 3001; listening := true |} eq_refl)
    as (l' & Hl' & Hb).
  exists l'. split; [exact Hl'|]. split; [exact Hb|].
  apply Hclosed. exact Hl'.
Defined.

End LifecycleProps.

(* ================================================================== *)
(** ** Further properties of [src/tunnel.ts]                          *)
(* ================================================================== *)

Section TunnelLifeProps.
Import Js Tunnel Samples.

Lemma tunnel_run_invariant (P : Run -> Prop) :
  (forall r e, P r -> P (step r e)) ->
  forall events r, P r -> P (run r events).
Proof.
  intros Hstep events. induction events as [|e events IH]; intros r Hr;
    [exact Hr|].
  cbn. apply IH, Hstep, Hr.
Qed.

Lemma resolve_settled {A} (v : A) (p : Promise A) :
  p <> Pending -> resolve v p = p.
Proof. destruct p; [contradiction|reflexivity..]. Qed.

Lemma reject_settled {A} (reason : string) (p : Promise A) :
  p <> Pending -> reject reason p = p.
Proof. destruct p; [contradiction|reflexivity..]. Qed.

Lemma parseForUrl_settled (output : string) (r : Run) :
  promise r <> Pending -> promise (parseForUrl output r) = promise r.
Proof.
  intros Hp. unfold parseForUrl.
  destruct (regex_match output); [|reflexivity].
  destruct (negb (truthy (tunnelUrl (this r)))); [|reflexivity].
  cbn. apply resolve_settled, Hp.
Qed.

Lemma step_settled (r : Run) (e : Event) :
  promise r <> Pending -> promise (step r e) = promise r.
Proof.
  intros Hp. destruct e as [data|data|message|code| |]; cbn [step].
  - apply parseForUrl_settled, Hp.
  - rewrite parseForUrl_settled by exact Hp. reflexivity.
  - cbn. apply reject_settled, Hp.
  - destruct (negb match code with Some 0%Z => true | _ => false end
              && negb (truthy (tunnelUrl (this r)))); cbn;
      [apply reject_settled, Hp|reflexivity].
  - destruct (negb (truthy (tunnelUrl (this r)))); [|reflexivity].
    cbn. unfold stop. destruct (process (this r)); cbn;
      apply reject_settled, Hp.
  - unfold stop. destruct (process (this r)); reflexivity.
Qed.

(** X7. The promise of [start()] settles once: after it has been resolved
    or rejected, no output, error, exit, timeout or [stop()] changes its
    outcome. *)
Theorem start_promise_settles_once (r : Run) (events : list Event)
    (Hsettled : promise r <> Pending) :
  promise (run r events) = promise r.
Proof.
  apply (tunnel_run_invariant (fun r' => promise r' = promise r));
    [|reflexivity].
  intros r' e Hr'. rewrite <- Hr'. apply step_settled.
  rewrite Hr'. exact Hsettled.
Qed.

Lemma parseForUrl_killed (output : string) (r : Run) :
  killed (parseForUrl output r) = killed r.
Proof.
  unfold parseForUrl. destruct (regex_match output); [|reflexivity].
  destruct (negb (truthy (tunnelUrl (this r)))); reflexivity.
Qed.

Lemma outputs_keep_killed (chunks : list (Channel * string)) (r : Run) :
  killed (run r (map output_event chunks)) = killed r.
Proof.
  revert r. induction chunks as [|[ch data] chunks IH]; intros r;
    [reflexivity|].
  cbn [map run fold_left].
  fold (run (step r (output_event (ch, data))) (map output_event chunks)).
  rewrite IH. destruct ch; cbn [output_event step];
    rewrite parseForUrl_killed; reflexivity.
Qed.

Lemma first_match_truthy (chunks : list (Channel * string)) (url : string) :
  first_match chunks = Some url -> truthy (Some url) = true.
Proof.
  intros Hf.
  destruct (first_match_origin chunks url Hf)
    as (_ & _ & _ & _ & _ & _ & (_ & _ & _ & (l & _ & _ & ->) & _)).
  reflexivity.
Qed.

(** X8. When the 30 s timer fires after output in which no URL was found,
    the subprocess is killed, the process handle and the URL are absent,
    [isRunning] is false and [start()] is rejected with the timeout
    message.  When a URL was found before, the timer changes nothing. *)
Theorem timeout_kills_only_without_url (o : TunnelOptions)
    (chunks : list (Channel * string)) :
  let r0 := start (new_CloudflareTunnel o) in
  let r := run r0 (map output_event chunks) in
  (first_match chunks = None ->
     promise (step r Timeout) = Rejected timeout_message
     /\ process (this (step r Timeout)) = None
     /\ getUrl (this (step r Timeout)) = None
     /\ isRunning (this (step r Timeout)) = false
     /\ map Some (killed (step r Timeout)) = [process (this r0)])
  /\ (forall url, first_match chunks = Some url -> step r Timeout = r).
Proof.
  intros r0 r.
  destruct (outputs_until_url chunks r0 eq_refl eq_refl) as [Hrun Hproc].
  pose proof (outputs_keep_killed chunks r0) as Hkilled.
  fold r in Hrun, Hproc, Hkilled. split.
  - intros Hnone. rewrite Hnone in Hrun. destruct Hrun as (Ht & Hp & _).
    cbn [step]. rewrite Ht. cbn [r0 start this tunnelUrl truthy negb
                                   new_CloudflareTunnel].
    unfold stop. rewrite Ht. cbn. rewrite Hp, Hkilled. repeat split.
  - intros url Hsome. rewrite Hsome in Hrun. destruct Hrun as [Hu _].
    cbn [step]. rewrite Hu, (first_match_truthy chunks url Hsome).
    reflexivity.
Qed.

Lemma timeout_kills_only_without_url_witness :
  promise (step (run started_tunnel [Stderr "INF Requesting new quick Tunnel"])
             Timeout) = Rejected timeout_message
  /\ isRunning (this (step (run started_tunnel
                              [Stderr "INF Requesting new quick Tunnel"])
                        Timeout)) = false
  /\ step (run started_tunnel (map output_event announcement)) Timeout
     = run started_tunnel (map output_event announcement).
Proof.
  destruct (timeout_kills_only_without_url {| options_port := 3000 |}
              [(stderr_, "INF Requesting new quick Tunnel"%string)])
    as [Hnone _].
  destruct (Hnone eq_refl) as (Hp & _ & _ & Hrun & _).
  destruct (timeout_kills_only_without_url {| options_port := 3000 |}
              announcement) as [_ Hsome].
  split; [exact Hp|]. split; [exact Hrun|].
  apply (Hsome "https://blue-sky-42.trycloudflare.com"%string).
  vm_compute. reflexivity.
Defined.

(** X9. [isRunning] is false on a new tunnel; after [start()] and any
    output it is true exactly when some chunk held a URL; after [stop()]
    it is false, whatever happened before. *)
Theorem isRunning_from_url_to_stop :
  (forall o, isRunning (new_CloudflareTunnel o) = false)
  /\ (forall o chunks,
        isRunning (this (run (start (new_CloudflareTunnel o))
                           (map output_event chunks)))
        = match first_match chunks with Some _ => true | None => false end)
  /\ (forall r, isRunning (this (step r Stop)) = false).
Proof.
  split; [reflexivity|]. split.
  - intros o chunks.
    destruct (outputs_until_url chunks (start (new_CloudflareTunnel o))
                eq_refl eq_refl) as [Hrun Hproc].
    unfold isRunning. rewrite Hproc.
    destruct (first_match chunks) as [url|].
    + destruct Hrun as [-> _]. reflexivity.
    + destruct Hrun as (-> & _). reflexivity.
  - intros r. cbn [step]. unfold stop, isRunning.
    destruct (process (this r)) eqn:Hproc; cbn; [reflexivity|].
    rewrite Hproc. reflexivity.
Qed.

Lemma stop_stop (r : Run) : stop (stop r) = stop r.
Proof.
  unfold stop. destruct (process (this r)) eqn:Hproc; cbn;
    [reflexivity|]. rewrite Hproc. reflexivity.
Qed.

Lemma kill_invariant_step (r0 r : Run) (e : Event) :
  (process (this r) = process (this r0) /\ killed r = []
   \/ process (this r) = None /\ map Some (killed r) = [process (this r0)]) ->
  process (this (step r e)) = process (this r0) /\ killed (step r e) = []
  \/ process (this (step r e)) = None
     /\ map Some (killed (step r e)) = [process (this r0)].
Proof.
  assert (Hparse : forall output r',
             process (this (parseForUrl output r')) = process (this r')
             /\ killed (parseForUrl output r') = killed r').
  { intros output r'. unfold parseForUrl.
    destruct (regex_match output); [|split; reflexivity].
    destruct (negb (truthy (tunnelUrl (this r')))); split; reflexivity. }
  assert (Hstop : forall r',
             (process (this r') = process (this r0) /\ killed r' = []
              \/ process (this r') = None
                 /\ map Some (killed r') = [process (this r0)]) ->
             process (this (stop r')) = process (this r0)
             /\ killed (stop r') = []
             \/ process (this (stop r')) = None
                /\ map Some (killed (stop r')) = [process (this r0)]).
  { intros r' Hr'. unfold stop.
    destruct (process (this r')) as [child|] eqn:Hproc;
      [|rewrite Hproc; exact Hr'].
    destruct Hr' as [[Hp Hk]|[Hp _]]; [|discriminate Hp].
    right. cbn. rewrite Hk, <- Hp. split; reflexivity. }
  intros Hr. destruct e as [data|data|message|code| |]; cbn [step].
  - destruct (Hparse data r) as [-> ->]. exact Hr.
  - destruct (Hparse data
                {| this := this r; stderr := stderr r +:+ data;
                   promise := promise r; exits := exits r;
                   killed := killed r |}) as [-> ->]. exact Hr.
  - exact Hr.
  - destruct (negb match code with Some 0%Z => true | _ => false end
              && negb (truthy (tunnelUrl (this r)))); exact Hr.
  - destruct (negb (truthy (tunnelUrl (this r)))); [|exact Hr].
    exact (Hstop r Hr).
  - exact (Hstop r Hr).
Qed.

(** X10. [stop()] is idempotent and does nothing when no subprocess is
    held, and after [start()] the subprocess is killed at most once:
    whatever events follow, either the handle of the spawned subprocess is
    still held and [kill()] was never called, or the handle is absent and
    [kill()] was called exactly once, on that subprocess. *)
Theorem subprocess_killed_at_most_once :
  (forall r, stop (stop r) = stop r)
  /\ (forall r, process (this r) = None -> stop r = r)
  /\ (forall o events,
        let r0 := start (new_CloudflareTunnel o) in
        let r := run r0 events in
        process (this r) = process (this r0) /\ killed r = []
        \/ process (this r) = None
           /\ map Some (killed r) = [process (this r0)]).
Proof.
  split; [exact stop_stop|].
  split; [intros r Hnone; unfold stop; rewrite Hnone; reflexivity|].
  intros o events r0 r.
  apply (tunnel_run_invariant
           (fun r' =>
              process (this r') = process (this r0) /\ killed r' = []
              \/ process (this r') = None
                 /\ map Some (killed r') = [process (this r0)]));
    [intros r' e; apply kill_invariant_step|].
  left. split; reflexivity.
Qed.

(** X11. The listeners stay attached after the timer stopped the tunnel:
    output that arrives afterwards and holds a URL is still stored as the
    tunnel URL, although [start()] stays rejected and [isRunning] stays
    false; and as the process handle is absent, a later [stop()] does not
    clear that URL. *)
Theorem url_stored_after_timeout (o : TunnelOptions)
    (chunks : list (Channel * string)) (data url : string)
    (Hnone : first_match chunks = None)
    (Hlate : regex_match data = Some url) :
  let r := run (start (new_CloudflareTunnel o))
             (map output_event chunks ++ [Timeout; Stdout data]) in
  getUrl (this r) = Some url
  /\ isRunning (this r) = false
  /\ promise r = Rejected timeout_message
  /\ getUrl (this (step r Stop)) = Some url.
Proof.
  intros r. subst r. rewrite tunnel_run_app.
  destruct (outputs_until_url chunks (start (new_CloudflareTunnel o))
              eq_refl eq_refl) as [Hrun _].
  rewrite Hnone in Hrun. destruct Hrun as (Ht & Hp & _).
  set (r := run (start (new_CloudflareTunnel o)) (map output_event chunks))
    in *.
  cbn [run fold_left step]. rewrite Ht.
  cbn [start this tunnelUrl truthy negb new_CloudflareTunnel].
  unfold stop. rewrite Ht. cbn [start this process].
  rewrite parseForUrl_first with (url := url); [|reflexivity|exact Hlate].
  cbn. rewrite Hp. repeat split.
Qed.

Lemma url_stored_after_timeout_witness :
  let r := run started_tunnel
             [Stderr "INF Requesting new quick Tunnel"; Timeout;
              Stdout "https://late.trycloudflare.com"] in
  getUrl (this r) = Some "https://late.trycloudflare.com"%string
  /\ isRunning (this r) = false
  /\ promise r = Rejected timeout_message
  /\ getUrl (this (step r Stop)) = Some "https://late.trycloudflare.com"%string.
Proof.
  exact (url_stored_after_timeout {| options_port := 3000 |}
           [(stderr_, "INF Requesting new quick Tunnel"%string)]
           "https://late.trycloudflare.com"
           "https://late.trycloudflare.com" eq_refl eq_refl).
Defined.

Lemma subprocess_killed_at_most_once_witness :
  stop (step (run started_tunnel [Stderr "INF Requesting new quick Tunnel"])
          Timeout)
  = step (run started_tunnel [Stderr "INF Requesting new quick Tunnel"])
      Timeout.
Proof.
  destruct subprocess_killed_at_most_once as (_ & Hidle & _).
  apply Hidle. reflexivity.
Defined.

Lemma start_promise_settles_once_witness :
  promise (run (run started_tunnel (map output_event announcement))
             [Exit (Some 1%Z); ProcessError "late"; Timeout; Stop])
  = Fulfilled "https://blue-sky-42.trycloudflare.com"%string.
Proof.
  rewrite (start_promise_settles_once
             (run started_tunnel (map output_event announcement))
             [Exit (Some 1%Z); ProcessError "late"; Timeout; Stop]).
  - vm_compute. reflexivity.
  - vm_compute. discriminate.
Defined.

End TunnelLifeProps.

(* ================================================================== *)
(** ** Further properties of [src/utils.ts]                           *)
(* ================================================================== *)

Section FormatProps.
Import Js Utils.

Lemma unit_index_of_multiple (m i : N) :
  1 <= m < k -> unit_index (m * k ^ i) = i.
Proof.
  intros [Hlo Hhi]. pose proof (k_pow_pos i) as Hk.
  assert (Hb : 1 <= m * k ^ i) by nia.
  apply N.le_antisymm.
  - apply N.lt_succ_r. rewrite <- N.add_1_r.
    apply unit_index_below; [exact Hb|].
    rewrite N.pow_add_r, N.pow_1_r. rewrite (N.mul_comm (k ^ i) k).
    apply N.mul_lt_mono_pos_r; assumption.
  - apply unit_index_largest; [exact Hb|]. nia.
Qed.

Lemma toFixed2_of_multiple (m i : N) : toFixed2 (m * k ^ i) i = 100 * m.
Proof.
  unfold toFixed2. pose proof (k_pow_pos i) as Hk.
  replace (200 * (m * k ^ i) + k ^ i)
    with (k ^ i + (100 * m) * (2 * k ^ i)) by lia.
  rewrite N.div_add by lia.
  rewrite N.div_small by lia. lia.
Qed.

Lemma show_hundredths_whole (m : N) : show_hundredths (100 * m) = show_N m.
Proof.
  unfold show_hundredths.
  replace (100 * m) with (m * 100) by lia.
  rewrite N.Div0.mod_mul, N.div_mul by discriminate. reflexivity.
Qed.

(** X12. A size that is a whole multiple of its unit is printed without
    decimals: for [1 <= m < 1024] and a unit index [i] of at most 4,
    [formatBytes(m * 1024^i)] is [m], a space and the [i]-th unit; in
    particular every size below 1024 is printed as the exact byte count
    followed by [B]. *)
Theorem formatBytes_whole_units (m i : N) (u : string)
    (Hm : 1 <= m < 1024) (Hu : sizes !! N.to_nat i = Some u) :
  formatBytes (m * 1024 ^ i) = show_N m +:+ " " +:+ u.
Proof.
  change 1024 with k in *. pose proof (k_pow_pos i) as Hk.
  rewrite formatBytes_nonzero by nia.
  rewrite unit_index_of_multiple by exact Hm.
  rewrite toFixed2_of_multiple, show_hundredths_whole.
  unfold size_unit. rewrite Hu. reflexivity.
Qed.

Lemma formatBytes_whole_units_witness :
  formatBytes (5 * 1024 ^ 4) = "5 TB"%string
  /\ formatBytes (500 * 1024 ^ 0) = "500 B"%string.
Proof.
  split.
  - apply (formatBytes_whole_units 5 4 "TB"); [lia|reflexivity].
  - apply (formatBytes_whole_units 500 0 "B"); [lia|reflexivity].
Defined.

End FormatProps.

Section FormatExamples.
Import Js Utils.


End FormatExamples.


Section ParseProps.
Import Js Utils UtilsRest.

Lemma parse_digits_acc (d : Decimal.uint) (acc : positive) (rest : string) :
  no_leading_digit rest ->
  parse_digits (Npos acc) (NilEmpty.string_of_uint d +:+ rest)
  = Npos (Pos.of_uint_acc d acc).
Proof.
  intros Hrest. revert acc.
  induction d as [|d IH|d IH|d IH|d IH|d IH|d IH|d IH|d IH|d IH|d IH];
    intros acc; cbn [NilEmpty.string_of_uint Pos.of_uint_acc];
    rewrite ?append_cons; cbn [parse_digits];
    try (change (digit_of "0") with (Some 0);
         change (digit_of "1") with (Some 1);
         change (digit_of "2") with (Some 2);
         change (digit_of "3") with (Some 3);
         change (digit_of "4") with (Some 4);
         change (digit_of "5") with (Some 5);
         change (digit_of "6") with (Some 6);
         change (digit_of "7") with (Some 7);
         change (digit_of "8") with (Some 8);
         change (digit_of "9") with (Some 9);
         cbv iota beta;
         match goal with
         | |- parse_digits ?a _ = N.pos (Pos.of_uint_acc _ ?b) =>
             replace a with (N.pos b) by lia; apply IH
         end).
  rewrite append_nil. destruct rest as [|c rest]; [reflexivity|].
  cbn [parse_digits]. cbn in Hrest. rewrite Hrest. reflexivity.
Qed.

Lemma parse_digits_uint (d : Decimal.uint) (rest : string) :
  no_leading_digit rest ->
  parse_digits 0 (NilEmpty.string_of_uint d +:+ rest) = Pos.of_uint d.
Proof.
  intros Hrest.
  induction d as [|d IH|d IH|d IH|d IH|d IH|d IH|d IH|d IH|d IH|d IH];
    cbn [NilEmpty.string_of_uint Pos.of_uint];
    rewrite ?append_cons; cbn [parse_digits].
  - rewrite append_nil. destruct rest as [|c rest]; [reflexivity|].
    cbn [parse_digits]. cbn in Hrest. rewrite Hrest. reflexivity.
  - change (digit_of "0") with (Some 0). cbv iota beta. exact IH.
  - change (digit_of "1") with (Some 1). cbv iota beta.
    apply (parse_digits_acc d 1 rest Hrest).
  - change (digit_of "2") with (Some 2). cbv iota beta.
    apply (parse_digits_acc d 2 rest Hrest).
  - change (digit_of "3") with (Some 3). cbv iota beta.
    apply (parse_digits_acc d 3 rest Hrest).
  - change (digit_of "4") with (Some 4). cbv iota beta.
    apply (parse_digits_acc d 4 rest Hrest).
  - change (digit_of "5") with (Some 5). cbv iota beta.
    apply (parse_digits_acc d 5 rest Hrest).
  - change (digit_of "6") with (Some 6). cbv iota beta.
    apply (parse_digits_acc d 6 rest Hrest).
  - change (digit_of "7") with (Some 7). cbv iota beta.
    apply (parse_digits_acc d 7 rest Hrest).
  - change (digit_of "8") with (Some 8). cbv iota beta.
    apply (parse_digits_acc d 8 rest Hrest).
  - change (digit_of "9") with (Some 9). cbv iota beta.
    apply (parse_digits_acc d 9 rest Hrest).
Qed.

Lemma digit_of_range (c : ascii) (v : N) :
  digit_of c = Some v -> 48 <= code c <= 57.
Proof.
  unfold digit_of. intros Hd.
  destruct ((48 <=? code c) && (code c <=? 57)) eqn:Hr; [|discriminate Hd].
  apply andb_true_iff in Hr as [H1 H2].
  apply N.leb_le in H1. apply N.leb_le in H2. lia.
Qed.

Lemma trim_start_digit (c : ascii) (v : N) (x : string) :
  digit_of c = Some v -> trim_start (String c x) = String c x.
Proof.
  intros Hd. apply digit_of_range in Hd.
  assert (H1 : is_space1 c = false).
  { unfold is_space1.
    destruct (N.leb_spec 9 (code c)), (N.leb_spec (code c) 13),
      (N.eqb_spec (code c) 32); cbn; try reflexivity; lia. }
  assert (H2 : forall c2, is_space2 c c2 = false).
  { intros c2. unfold is_space2.
    destruct (N.eqb_spec (code c) 194); [lia|reflexivity]. }
  assert (H3 : forall c2 c3, is_space3 c c2 c3 = false).
  { intros c2 c3. unfold is_space3.
    destruct (N.eqb_spec (code c) 225); [lia|].
    destruct (N.eqb_spec (code c) 226); [lia|].
    destruct (N.eqb_spec (code c) 227); [lia|].
    destruct (N.eqb_spec (code c) 239); [lia|]. reflexivity. }
  cbn [trim_start]. rewrite H1.
  destruct x as [|c2 [|c3 x]]; rewrite ?H2, ?H3; reflexivity.
Qed.

Lemma to_uint_not_nil (n : N) : 0 < n -> N.to_uint n <> Decimal.Nil.
Proof.
  intros Hpos Hnil. pose proof (DecimalN.Unsigned.of_to n) as Hof.
  rewrite Hnil in Hof. cbn in Hof. lia.
Qed.

Lemma parseInt10_show_N (n : N) (rest : string) :
  0 < n -> no_leading_digit rest ->
  parseInt10 (show_N n +:+ rest) = Some (Z.of_N n).
Proof.
  intros Hpos Hrest. unfold show_N.
  pose proof (to_uint_not_nil n Hpos) as Hnil.
  pose proof (DecimalN.Unsigned.of_to n) as Hof.
  assert (Hvalue : parse_digits 0
                     (NilEmpty.string_of_uint (N.to_uint n) +:+ rest) = n).
  { rewrite parse_digits_uint by exact Hrest. exact Hof. }
  destruct (N.to_uint n) as [|d|d|d|d|d|d|d|d|d|d]; [contradiction|..];
    cbn [NilZero.string_of_uint NilEmpty.string_of_uint] in *;
    rewrite append_cons in *; unfold parseInt10;
    erewrite trim_start_digit by reflexivity;
    cbv beta iota zeta;
    match goal with
    | |- context [digit_of ?c] =>
        let v := eval vm_compute in (digit_of c) in
        change (digit_of c) with v
    end;
    cbv beta iota; rewrite Hvalue; reflexivity.
Qed.

(** X14. [parseExpiration] reads a decimal number and ignores what
    follows it: for a positive integer [n] below 2^53 written in decimal,
    followed by any text that does not go on with a digit (none, or a unit
    such as "min"), the result is [n]. *)
Theorem parseExpiration_reads_decimal (n : N) (rest : string)
    (Hpos : 0 < n) (Hexact : n < 2 ^ 53)
    (Hrest : no_leading_digit rest) :
  parseExpiration (ExpireString (show_N n +:+ rest)) = Ok (Z.of_N n).
Proof.
  unfold parseExpiration. rewrite parseInt10_show_N by assumption.
  destruct (Z.leb_spec (Z.of_N n) 0); [lia|reflexivity].
Qed.

Lemma parseExpiration_reads_decimal_witness :
  parseExpiration (ExpireString "1440") = Ok 1440%Z
  /\ parseExpiration (ExpireString "60min") = Ok 60%Z.
Proof.
  split.
  - apply (parseExpiration_reads_decimal 1440 ""); [lia|lia|exact I].
  - apply (parseExpiration_reads_decimal 60 "min"); [lia|lia|reflexivity].
Defined.

(** X15. [parseExpiration] validates strings only.  What it returns for a
    string is at least 1; a string that is empty or blank, or whose first
    character after the leading white space is a minus sign, is refused
    with "Invalid expiration time".  A number is returned as it is, zero
    and negative numbers included. *)
Theorem parseExpiration_validates_strings_only :
  (forall s z, parseExpiration (ExpireString s) = Ok z -> (1 <= z)%Z)
  /\ (forall s, trim_start s = EmptyString ->
        parseExpiration (ExpireString s) = Throw invalid_expiration)
  /\ (forall s rest, trim_start s = String "-" rest ->
        parseExpiration (ExpireString s) = Throw invalid_expiration)
  /\ (forall z, parseExpiration (ExpireNumber z) = Ok z).
Proof.
  split; [|split; [|split]].
  - intros s z. unfold parseExpiration.
    destruct (parseInt10 s) as [num|]; [|discriminate].
    destruct (Z.leb_spec num 0); [discriminate|].
    intros E. injection E as <-. lia.
  - intros s Hblank. unfold parseExpiration, parseInt10. rewrite Hblank.
    reflexivity.
  - intros s rest Hminus. unfold parseExpiration, parseInt10.
    rewrite Hminus. cbv beta iota zeta.
    destruct rest as [|c rest']; [reflexivity|].
    destruct (digit_of c); [|reflexivity].
    destruct (Z.leb_spec (- Z.of_N (parse_digits 0 (String c rest'))) 0);
      [reflexivity|lia].
  - intros z. reflexivity.
Qed.

Lemma parseExpiration_validates_strings_only_witness :
  parseExpiration (ExpireString "   ") = Throw invalid_expiration
  /\ parseExpiration (ExpireString " -10") = Throw invalid_expiration
  /\ parseExpiration (ExpireNumber (-10)) = Ok (-10)%Z.
Proof.
  destruct parseExpiration_validates_strings_only
    as (_ & Hblank & Hminus & Hnumber).
  split; [apply Hblank; reflexivity|].
  split; [apply (Hminus " -10"%string "10"%string); reflexivity|].
  apply Hnumber.
Defined.

End ParseProps.

Section PathProps.
Import Js Utils UtilsRest.

Lemma split_path_slash (rest : string) :
  split_path (String "/" rest) = EmptyString :: split_path rest.
Proof. reflexivity. Qed.

Lemma split_path_app_slash (seg rest : string) :
  has_slash seg = false ->
  split_path (seg +:+ String "/" rest) = seg :: split_path rest.
Proof.
  induction seg as [|c seg IH]; intros Hseg; [reflexivity|].
  cbn [has_slash] in Hseg. apply orb_false_iff in Hseg as [Hc Hseg].
  rewrite append_cons. cbn [split_path]. rewrite Hc, (IH Hseg).
  reflexivity.
Qed.

Lemma split_path_no_slash (s : string) :
  Forall (fun seg => has_slash seg = false) (split_path s).
Proof.
  induction s as [|c s IH]; [repeat constructor|].
  cbn [split_path]. destruct (Ascii.eqb c "/") eqn:Hc.
  - constructor; [reflexivity|exact IH].
  - destruct (split_path s) as [|seg segs]; [repeat constructor;
                                             cbn; rewrite Hc; reflexivity|].
    inversion IH as [|? ? Hseg Hsegs]; subst.
    constructor; [cbn; rewrite Hc, Hseg; reflexivity|exact Hsegs].
Qed.

Lemma normalize_onto_app (kept l1 l2 : list string) :
  normalize_onto kept (l1 ++ l2) = normalize_onto (normalize_onto kept l1) l2.
Proof.
  revert kept. induction l1 as [|seg l1 IH]; intros kept; [reflexivity|].
  cbn [app normalize_onto].
  destruct (String.eqb seg "" || String.eqb seg "."); [apply IH|].
  destruct (String.eqb seg ".."); apply IH.
Qed.

Lemma clean_kept (seg : string) :
  clean seg ->
  String.eqb seg "" || String.eqb seg "." = false
  /\ String.eqb seg ".." = false.
Proof.
  intros (H1 & H2 & H3 & _).
  destruct (String.eqb_spec seg ""); [contradiction|].
  destruct (String.eqb_spec seg "."); [contradiction|].
  destruct (String.eqb_spec seg ".."); [contradiction|].
  split; reflexivity.
Qed.

Lemma normalize_onto_clean (kept segs : list string) :
  Forall clean segs -> normalize_onto kept segs = rev segs ++ kept.
Proof.
  intros Hall. revert kept.
  induction Hall as [|seg segs Hseg _ IH]; intros kept; [reflexivity|].
  destruct (clean_kept seg Hseg) as [E1 E2].
  cbn [normalize_onto rev]. rewrite E1, E2, IH, <- app_assoc. reflexivity.
Qed.

Lemma normalize_onto_keeps_clean (kept segs : list string) :
  Forall clean kept -> Forall (fun seg => has_slash seg = false) segs ->
  Forall clean (normalize_onto kept segs).
Proof.
  intros Hkept Hsegs. revert kept Hkept.
  induction Hsegs as [|seg segs Hseg _ IH]; intros kept Hkept;
    [exact Hkept|].
  cbn [normalize_onto].
  destruct (String.eqb_spec seg "") as [|Hne1]; [apply IH, Hkept|].
  destruct (String.eqb_spec seg ".") as [|Hne2]; [apply IH, Hkept|].
  cbn [orb].
  destruct (String.eqb_spec seg "..") as [|Hne3].
  - apply IH. destruct Hkept; [constructor|assumption].
  - apply IH. constructor; [|exact Hkept]. repeat split; assumption.
Qed.

Lemma split_path_concat (segs : list string) :
  segs <> [] -> Forall (fun seg => has_slash seg = false) segs ->
  split_path (String.concat "/" segs +:+ "/") = segs ++ [EmptyString].
Proof.
  intros Hne Hall. induction Hall as [|seg segs Hseg Hsegs IH];
    [contradiction|].
  destruct segs as [|seg2 segs].
  - cbn [String.concat app]. apply (split_path_app_slash seg ""), Hseg.
  - change (String.concat "/" (seg :: seg2 :: segs))
      with (seg +:+ "/" +:+ String.concat "/" (seg2 :: segs)).
    rewrite !append_assoc.
    change ("/" +:+ String.concat "/" (seg2 :: segs) +:+ "/")
      with (String "/" (String.concat "/" (seg2 :: segs) +:+ "/")).
    rewrite (split_path_app_slash seg _ Hseg), IH by discriminate.
    reflexivity.
Qed.

(** What [path.resolve] returns: a slash followed by clean segments. *)
Lemma resolve_clean (cwd filePath : string) :
  exists segs, Forall clean segs
               /\ resolve cwd filePath = "/" +:+ String.concat "/" segs.
Proof.
  unfold resolve. eexists. split; [|reflexivity].
  apply Forall_rev, normalize_onto_keeps_clean;
    [constructor|apply split_path_no_slash].
Qed.

Lemma clean_no_slash (segs : list string) :
  Forall clean segs -> Forall (fun seg => has_slash seg = false) segs.
Proof.
  intros Hall. eapply Forall_impl; [exact Hall|].
  intros seg (_ & _ & _ & Hs). exact Hs.
Qed.

Lemma normalize_onto_empty (kept rest : list string) :
  normalize_onto kept (EmptyString :: rest) = normalize_onto kept rest.
Proof. reflexivity. Qed.

Lemma resolve_of_clean (cwd : string) (segs : list string) :
  Forall clean segs ->
  resolve cwd ("/" +:+ String.concat "/" segs)
  = "/" +:+ String.concat "/" segs.
Proof.
  intros Hall. unfold resolve.
  change ("/" +:+ String.concat "/" segs)
    with (String "/" (String.concat "/" segs)).
  assert (E1 : String.eqb (String "/" (String.concat "/" segs)) "" = false)
    by reflexivity.
  assert (E2 : is_absolute (String "/" (String.concat "/" segs)) = true)
    by reflexivity.
  rewrite E1, E2, (append_cons "/" (String.concat "/" segs) "/").
  rewrite split_path_slash, normalize_onto_empty.
  destruct segs as [|seg segs'].
  - reflexivity.
  - rewrite split_path_concat by (discriminate || apply clean_no_slash, Hall).
    rewrite normalize_onto_app, (normalize_onto_clean _ _ Hall).
    rewrite normalize_onto_empty. cbn [normalize_onto].
    rewrite app_nil_r, rev_involutive. reflexivity.
Qed.

Lemma resolve_stable (cwd cwd' filePath : string) :
  resolve cwd' (resolve cwd filePath) = resolve cwd filePath.
Proof.
  destruct (resolve_clean cwd filePath) as (segs & Hall & ->).
  apply resolve_of_clean, Hall.
Qed.

Lemma resolve_absolute (cwd filePath : string) :
  is_absolute (resolve cwd filePath) = true.
Proof. reflexivity. Qed.

End PathProps.

(* ================================================================== *)
(** ** Properties of [validateFile]                                   *)
(* ================================================================== *)

Section ValidateProps.
Import Js Utils UtilsRest Server Samples.
Context `{Bcrypt.Impl}.

Lemma validateFile_valid (cwd : string) (disk : Disk) (filePath : string) :
  valid (validateFile cwd disk filePath) = true ->
  exists content,
    disk !! resolve cwd filePath = Some (RegularFile content true)
    /\ validateFile cwd disk filePath
       = {| valid := true; error := None;
            absolutePath := Some (resolve cwd filePath) |}.
Proof.
  unfold validateFile.
  destruct (disk !! resolve cwd filePath) as [[content [|]|]|];
    cbn [valid]; try discriminate.
  intros _. exists content. split; reflexivity.
Qed.

(** X16. [validateFile] accepts a path exactly when its resolution names
    a regular file the process can read.  It then returns that resolved
    path without error, the path is absolute, and validating the returned
    path again, from any working directory, gives the same result.
    When it refuses, it returns no path and one of its three messages. *)
Theorem validateFile_accepts_readable_files
    (cwd : string) (disk : Disk) (filePath : string) :
  let v := validateFile cwd disk filePath in
  let absolute := resolve cwd filePath in
  (valid v = true
   <-> exists content, disk !! absolute = Some (RegularFile content true))
  /\ (valid v = true ->
      absolutePath v = Some absolute /\ error v = None
      /\ is_absolute absolute = true
      /\ forall cwd', validateFile cwd' disk absolute = v)
  /\ (valid v = false ->
      absolutePath v = None
      /\ (error v = Some ("File does not exist: " +:+ filePath)
          \/ error v = Some ("Path is not a file: " +:+ filePath)
          \/ error v
             = Some ("Cannot access file: " +:+ access_denied absolute))).
Proof.
  cbv zeta. split; [split|split].
  - intros Hv. destruct (validateFile_valid _ _ _ Hv) as (content & Hd & _).
    exists content. exact Hd.
  - intros (content & Hd). unfold validateFile. rewrite Hd. reflexivity.
  - intros Hv. destruct (validateFile_valid _ _ _ Hv) as (content & Hd & ->).
    cbn [absolutePath error]. repeat split.
    intros cwd'. unfold validateFile at 1.
    rewrite resolve_stable, Hd. reflexivity.
  - unfold validateFile.
    destruct (disk !! resolve cwd filePath) as [[content [|]|]|];
      cbn [valid absolutePath error]; intros Hv; try discriminate Hv;
      split; auto.
Qed.


End ValidateProps.

Section ValidateExamples.
Import Js Utils UtilsRest Server Samples.

Lemma validateFile_accepts_readable_files_witness :
  valid (validateFile "/srv" shared_disk "share/../share/report.txt") = true
  /\ absolutePath (validateFile "/srv" shared_disk "share/../share/report.txt")
     = Some report
  /\ valid (validateFile "/srv" shared_disk "share/") = false
  /\ absolutePath (validateFile "/srv" shared_disk "share/") = None.
Proof.
  destruct (validateFile_accepts_readable_files
              "/srv" shared_disk "share/../share/report.txt")
    as (_ & Hyes & _).
  destruct (validateFile_accepts_readable_files "/srv" shared_disk "share/")
    as (_ & _ & Hno).
  split; [reflexivity|]. split; [apply Hyes; reflexivity|].
  split; [reflexivity|]. apply Hno. reflexivity.
Defined.


End ValidateExamples.

(* ================================================================== *)
(** ** Properties of [src/cli.ts] and [src/fileServer.ts]             *)
(* ================================================================== *)

Section CliProps.
Import Js UtilsRest Orchestrator.

(** X18. The [share] command calls [orchestrator.share] only with a
    [maxDownloads] and an [expire] that [parseInt] read from the options
    and that are at least 1, so that the defaults [|| 1] and [|| 60] of
    [share] never replace them; the file and the password are passed on
    unchanged.  Otherwise it exits with code 1: with the max-downloads
    message when that option does not read as a number of at least 1,
    else with "Invalid expiration time". *)
Theorem share_action_checks_both_numbers
    (file : string) (options : CliOptions) :
  match share_action file options with
  | CallsShare o =>
      exists m e,
        parseInt10 (cli_maxDownloads options) = Some m /\ (1 <= m)%Z
        /\ parseInt10 (cli_expire options) = Some e /\ (1 <= e)%Z
        /\ o = {| share_filePath := file; share_maxDownloads := Some m;
                  share_expire := Some e;
                  share_password := cli_password options |}
        /\ or_default (share_maxDownloads o) 1 = m
        /\ or_default (share_expire o) 60 = e
  | CliExits exit_code message =>
      exit_code = 1
      /\ ((message = invalid_max_downloads
           /\ forall m, parseInt10 (cli_maxDownloads options) = Some m ->
                        (m < 1)%Z)
          \/ (message = "✗ Error: " +:+ invalid_expiration
              /\ (exists m, parseInt10 (cli_maxDownloads options) = Some m
                            /\ (1 <= m)%Z)
              /\ forall e, parseInt10 (cli_expire options) = Some e ->
                           (e < 1)%Z))
  end.
Proof.
  unfold share_action, parseExpiration.
  destruct (parseInt10 (cli_maxDownloads options)) as [m|].
  - destruct (Z.ltb_spec m 1) as [Hm|Hm].
    + split; [reflexivity|]. left. split; [reflexivity|].
      intros m' E. injection E as <-. exact Hm.
    + destruct (parseInt10 (cli_expire options)) as [e|].
      * destruct (Z.leb_spec e 0) as [He|He].
        -- split; [reflexivity|]. right. split; [reflexivity|].
           split; [exists m; split; [reflexivity|exact Hm]|].
           intros e' E. injection E as <-. lia.
        -- exists m, e. cbn [share_maxDownloads share_expire or_default].
           destruct (Z.eqb_spec m 0); [lia|].
           destruct (Z.eqb_spec e 0); [lia|].
           repeat split; try reflexivity; lia.
      * split; [reflexivity|]. right. split; [reflexivity|].
        split; [exists m; split; [reflexivity|exact Hm]|].
        intros e' E. discriminate E.
  - split; [reflexivity|]. left. split; [reflexivity|].
    intros m' E. discriminate E.
Qed.

End CliProps.

Section OrchestratorProps.
Import Js Utils UtilsRest Orchestrator.
Context `{Bcrypt.Impl}.

Lemma server_stop_listener (s : Server.FileServer) :
  Server.server (fst (Server.stop s))
  = (fun l => {| Server.bound := Server.bound l;
                 Server.listening := false |}) <$> Server.server s.
Proof. destruct s as [fp ph po dc [[b []]|]]; reflexivity. Qed.

Lemma server_stop_stop (s : Server.FileServer) :
  fst (Server.stop (fst (Server.stop s))) = fst (Server.stop s).
Proof. destruct s as [fp ph po dc [[b []]|]]; reflexivity. Qed.

Lemma server_stop_count (s : Server.FileServer) :
  Server.getDownloadCount (fst (Server.stop s)) = Server.getDownloadCount s.
Proof. destruct s as [fp ph po dc [[b []]|]]; reflexivity. Qed.

Lemma tunnel_stop_stopped (t : Tunnel.Run) :
  Tunnel.process (Tunnel.this (Tunnel.stop t)) = None.
Proof.
  unfold Tunnel.stop.
  destruct (Tunnel.process (Tunnel.this t)) eqn:Hproc; [reflexivity|].
  exact Hproc.
Qed.

Lemma cleanup_cleanup (p : Process) : cleanup (cleanup p) = cleanup p.
Proof.
  destruct p as [[a|] [t|] [tm|] [b|] ls sg ep ex]; unfold cleanup;
    cbn [server tunnel expirationTimer progressBar listeners signals
         exit_pending exited delay bar_started Server.self Server.set_self
         Server.fs Server.connections Server.emitted];
    rewrite ?server_stop_stop, ?stop_stop; reflexivity.
Qed.

Lemma cleanup_shut_down (p : Process) : shut_down (cleanup p).
Proof.
  unfold shut_down, listener.
  destruct p as [[a|] [t|] [tm|] [b|] ls sg ep ex];
    cbn [cleanup server tunnel expirationTimer progressBar cleared
         bar_stopped Server.self Server.set_self];
    rewrite ?server_stop_listener;
    repeat match goal with
    | |- _ /\ _ => split
    | |- True => exact I
    | |- true = true => reflexivity
    | |- Tunnel.process _ = None => apply tunnel_stop_stopped
    | |- Tunnel.isRunning _ = false =>
        unfold Tunnel.isRunning; rewrite tunnel_stop_stopped; reflexivity
    | |- match _ <$> ?l with _ => _ end => destruct l; cbn
    | |- false = false => reflexivity
    end.
Qed.


Lemma events_of_at_most_one (a : Server.App) (i : Server.Input) :
  (length (ServerEvents.events_of a i) <= 1)%nat.
Proof.
  unfold ServerEvents.events_of, ServerEvents.conn_events.
  repeat match goal with
         | |- context [match ?x with _ => _ end] => destruct x
         end; cbn; lia.
Qed.

Lemma step_listener (a : Server.App) (i : Server.Input) :
  Server.server (Server.self (Server.step a i))
  = Server.server (Server.self a).
Proof.
  destruct i as [q|id n|id|id|path content|path]; cbn [Server.step];
    try reflexivity.
  - destruct (get_download_connections q a) as (c & _ & Hself & _).
    rewrite Hself. reflexivity.
  - destruct (Server.connections a !! id) as [[r [d|]]|]; try reflexivity.
    destruct (Server.state (Server.fileStream d));
      [destruct (Server.take_bytes n
                   (Server.remaining (Server.fileStream d)))|..];
      reflexivity.
  - destruct (Server.connections a !! id) as [[r [d|]]|]; try reflexivity.
    destruct (Server.state (Server.fileStream d));
      [destruct (Server.remaining (Server.fileStream d))|..]; reflexivity.
  - destruct (Server.connections a !! id) as [[r [d|]]|]; try reflexivity.
    destruct (Server.state (Server.fileStream d)); reflexivity.
Qed.

Lemma listener_cleanup (q : Process) :
  listener (cleanup q)
  = (fun l => {| Server.bound := Server.bound l;
                 Server.listening := false |}) <$> listener q.
Proof.
  unfold listener. destruct q as [[a|] t tm b ls sg ep ex];
    cbn [cleanup server Server.self Server.set_self]; [|reflexivity].
  apply server_stop_listener.
Qed.

Lemma services_cleanup (q q' : Process) :
  services q = services q' -> services (cleanup q) = services (cleanup q').
Proof.
  unfold services. rewrite !listener_cleanup. intros E.
  injection E as El Et Em. rewrite El.
  destruct q, q'. cbn in *. subst. reflexivity.
Qed.

Lemma downloads_cleanup (q : Process) : downloads (cleanup q) = downloads q.
Proof.
  unfold downloads. destruct q as [[a|] t tm b ls sg ep ex];
    cbn [cleanup server Server.self Server.set_self]; [|reflexivity].
  apply server_stop_count.
Qed.

(** What one listener changes beside the bar. *)
Lemma on_server_event_services (m : Z) (e : Server.Emitted) (q : Process) :
  exited (on_server_event m e q) = exited q
  /\ listeners (on_server_event m e q) = listeners q
  /\ downloads (on_server_event m e q) = downloads q
  /\ match e with
     | Server.downloadComplete _ _ count =>
         if (m <=? Z.of_N count)%Z then
           exit_pending (on_server_event m e q)
           = Some (default 0 (exit_pending q))
           /\ services (on_server_event m e q) = services (cleanup q)
         else exit_pending (on_server_event m e q) = exit_pending q
              /\ services (on_server_event m e q) = services q
     | _ => exit_pending (on_server_event m e q) = exit_pending q
            /\ services (on_server_event m e q) = services q
     end.
Proof.
  destruct e as [|downloaded total|downloaded total count|];
    cbn [on_server_event].
  - repeat split.
  - destruct (progressBar q); repeat split.
  - destruct (m <=? Z.of_N count)%Z; [|repeat split].
    split; [reflexivity|]. split; [reflexivity|].
    split; [apply (downloads_cleanup (set_progressBar None q))|].
    split; [destruct q as [a t tm b ls sg [c|] ex]; reflexivity|].
    apply (services_cleanup (set_progressBar None q) q). reflexivity.
  - repeat split.
Qed.

Lemma limit_step (p0 p : Process) (m : Z) (i : Server.Input) :
  exited p = None -> listeners p = Some m ->
  downloads p0 <= downloads p ->
  exit_pending p
  = (if limit_reached m (downloads p0) (downloads p) then Some 0 else None) ->
  services p
  = services (if limit_reached m (downloads p0) (downloads p)
              then cleanup p0 else p0) ->
  exited (step p (ServerInput i)) = None
  /\ listeners (step p (ServerInput i)) = Some m
  /\ downloads p0 <= downloads (step p (ServerInput i))
  /\ exit_pending (step p (ServerInput i))
     = (if limit_reached m (downloads p0) (downloads (step p (ServerInput i)))
        then Some 0 else None)
  /\ services (step p (ServerInput i))
     = services (if limit_reached m (downloads p0)
                      (downloads (step p (ServerInput i)))
                 then cleanup p0 else p0).
Proof.
  intros Hex Hls Hmono Hpending Hservices.
  unfold step. rewrite Hex.
  destruct (server p) as [a|] eqn:Hserver; [|auto].
  set (q := set_server (Some (Server.step a i)) p).
  assert (Hq : exited q = None /\ listeners q = Some m
               /\ exit_pending q = exit_pending p
               /\ services q = services p
               /\ downloads q
                  = downloads p + (if Server.completes a i then 1 else 0)).
  { repeat split; try assumption.
    - unfold services, listener, q. cbn [server set_server tunnel
        expirationTimer]. rewrite Hserver, step_listener. reflexivity.
    - unfold downloads, q. cbn [server set_server]. rewrite Hserver.
      apply step_downloadCount. }
  destruct Hq as (Hqex & Hqls & Hqpending & Hqservices & Hqcount).
  unfold on_server_events. rewrite Hqls.
  pose proof (events_of_at_most_one a i) as Hlen.
  pose proof (events_of_complete_counts a i) as Hcounts.
  assert (Hnow : downloads p = Server.getDownloadCount (Server.self a)).
  { unfold downloads. rewrite Hserver. reflexivity. }
  destruct (ServerEvents.events_of a i) as [|e [|e' rest]];
    [| |cbn in Hlen; lia]; cbn [fold_left].
  - cbn [ServerEvents.complete_counts] in Hcounts.
    destruct (Server.completes a i); [discriminate Hcounts|].
    rewrite N.add_0_r in Hqcount. rewrite Hqcount, Hqpending, Hqservices.
    auto.
  - destruct (on_server_event_services m e q)
      as (Eex & Els & Ecount & Erest).
    rewrite Eex, Els, Ecount.
    split; [exact Hqex|]. split; [exact Hqls|].
    destruct e as [|downloaded total|downloaded total count|];
      cbn [ServerEvents.complete_counts] in Hcounts;
      try (destruct (Server.completes a i); [discriminate Hcounts|];
           rewrite N.add_0_r in Hqcount; destruct Erest as [-> ->];
           rewrite Hqcount, Hqpending, Hqservices; auto).
    destruct (Server.completes a i); [|discriminate Hcounts].
    injection Hcounts as ->. rewrite <- Hnow in *.
    rewrite Hqcount. split; [lia|].
    unfold limit_reached in *.
    destruct (Z.leb_spec m (Z.of_N (downloads p + 1))) as [Hm|Hm].
    + destruct Erest as [-> ->].
      assert (Hlt : (downloads p0 <? downloads p + 1) = true)
        by (apply N.ltb_lt; lia).
      rewrite Hlt. cbn [andb]. split.
      * rewrite Hqpending, Hpending.
        destruct ((downloads p0 <? downloads p)
                  && (m <=? Z.of_N (downloads p))%Z); reflexivity.
      * rewrite (services_cleanup q p Hqservices).
        rewrite (services_cleanup p _ Hservices).
        destruct ((downloads p0 <? downloads p)
                  && (m <=? Z.of_N (downloads p))%Z);
          [rewrite cleanup_cleanup|]; reflexivity.
    + destruct Erest as [-> ->]. rewrite andb_false_r.
      rewrite Hqpending, Hqservices, Hpending, Hservices.
      assert (Hbelow : (m <=? Z.of_N (downloads p))%Z = false)
        by (apply Z.leb_gt; lia).
      rewrite Hbelow, andb_false_r. auto.
Qed.

Lemma limit_run (p0 : Process) (m : Z) (inputs : list Server.Input) :
  forall p,
  exited p = None -> listeners p = Some m ->
  downloads p0 <= downloads p ->
  exit_pending p
  = (if limit_reached m (downloads p0) (downloads p) then Some 0 else None) ->
  services p
  = services (if limit_reached m (downloads p0) (downloads p)
              then cleanup p0 else p0) ->
  let p' := run p (map ServerInput inputs) in
  exited p' = None
  /\ exit_pending p'
     = (if limit_reached m (downloads p0) (downloads p')
        then Some 0 else None)
  /\ services p'
     = services (if limit_reached m (downloads p0) (downloads p')
                 then cleanup p0 else p0).
Proof.
  induction inputs as [|i inputs IH]; intros p Hex Hls Hmono Hp Hs.
  - cbn. auto.
  - destruct (limit_step p0 p m i Hex Hls Hmono Hp Hs)
      as (Hex' & Hls' & Hmono' & Hp' & Hs').
    cbn [map run fold_left].
    apply (IH (step p (ServerInput i)) Hex' Hls' Hmono' Hp' Hs').
Qed.

(** X20. While the process handles requests, it starts to shut down exactly
    when a download has completed and the server's count has reached the
    [maxDownloads] the listeners were registered with: until then the
    listener, the tunnel and the timer are as they were and no exit is
    due; from then on they are as [cleanup] leaves them, and the process
    exits with code 0 as soon as the [cleanup] it waits for resolves. *)
Theorem shutdown_at_max_downloads
    (p0 : Process) (m : Z) (inputs : list Server.Input) :
  listeners p0 = Some m -> exit_pending p0 = None -> exited p0 = None ->
  let p := run p0 (map ServerInput inputs) in
  let reached := limit_reached m (downloads p0) (downloads p) in
  exited p = None
  /\ exit_pending p = (if reached then Some 0 else None)
  /\ services p = services (if reached then cleanup p0 else p0)
  /\ exited (step p CleanupResolved)
     = (if reached then Some (ExitCode 0) else None).
Proof.
  intros Hls Hpending Hex.
  assert (Hfresh : limit_reached m (downloads p0) (downloads p0) = false).
  { unfold limit_reached. rewrite N.ltb_irrefl. reflexivity. }
  destruct (limit_run p0 m inputs p0 Hex Hls (N.le_refl _))
    as (Hex' & Hp' & Hs').
  { rewrite Hfresh. exact Hpending. }
  { rewrite Hfresh. reflexivity. }
  cbv zeta. split; [exact Hex'|]. split; [exact Hp'|]. split; [exact Hs'|].
  unfold step. rewrite Hex', Hp'.
  destruct (limit_reached m (downloads p0)
              (downloads (run p0 (map ServerInput inputs)))).
  - unfold exit, terminate. cbn [exited]. rewrite Hex'. reflexivity.
  - exact Hex'.
Qed.

Lemma start_resolved (net : Server.Net) (s s1 : Server.FileServer)
    (port : N) :
  Server.start net s = (s1, Server.StartResolved port) ->
  Server.server s1
  = Some {| Server.bound := port; Server.listening := true |}
  /\ Server.port s1 = port
  /\ Server.filePath s1 = Server.filePath s
  /\ Server.passwordHash s1 = Server.passwordHash s
  /\ Server.downloadCount s1 = Server.downloadCount s
  /\ net port = Server.Listens
  /\ (port = Server.port s
      \/ (port = Server.port s + 1
          /\ net (Server.port s) = Server.EmitsError "EADDRINUSE")).
Proof.
  unfold Server.start.
  destruct (net (Server.port s)) as [|code|e] eqn:Hfirst.
  - intros E. injection E as <- <-. rewrite Hfirst.
    repeat split. left. reflexivity.
  - destruct (String.eqb_spec code "EADDRINUSE") as [->|Hcode];
      [|discriminate].
    cbn [Server.port Server.set_port Server.set_server].
    destruct (net (Server.port s + 1)) as [|code'|e'] eqn:Hnext;
      try discriminate.
    intros E. injection E as <- <-. rewrite Hnext.
    repeat split. right. split; reflexivity.
  - discriminate.
Qed.

Lemma start_not_resolved (net : Server.Net) (s : Server.FileServer) :
  Server.server s = None ->
  match Server.start net s with
  | (_, Server.StartResolved _) => True
  | (s1, _) =>
      match Server.server s1 with
      | Some l => Server.listening l = false
      | None => True
      end
  end.
Proof.
  intros Hnone. unfold Server.start.
  destruct (net (Server.port s)) as [|code|e]; [exact I| |].
  - destruct (String.eqb code "EADDRINUSE"); [|reflexivity].
    cbn [Server.port Server.set_port Server.set_server].
    destruct (net (Server.port s + 1)) as [|code'|e']; [exact I|..];
      reflexivity.
  - rewrite Hnone. exact I.
Qed.

Lemma tunnel_options_run (events : list Tunnel.Event) (r : Tunnel.Run) :
  Tunnel.options (Tunnel.this (Tunnel.run r events))
  = Tunnel.options (Tunnel.this r).
Proof.
  apply (tunnel_run_invariant
           (fun r' => Tunnel.options (Tunnel.this r')
                      = Tunnel.options (Tunnel.this r)));
    [|reflexivity].
  intros r' e Hr'. rewrite <- Hr'.
  assert (Hparse : forall data r0,
             Tunnel.options (Tunnel.this (Tunnel.parseForUrl data r0))
             = Tunnel.options (Tunnel.this r0)).
  { intros data r0. unfold Tunnel.parseForUrl.
    destruct (Tunnel.regex_match data); [|reflexivity].
    destruct (negb (truthy (Tunnel.tunnelUrl (Tunnel.this r0))));
      reflexivity. }
  assert (Hstop : forall r0,
             Tunnel.options (Tunnel.this (Tunnel.stop r0))
             = Tunnel.options (Tunnel.this r0)).
  { intros r0. unfold Tunnel.stop.
    destruct (Tunnel.process (Tunnel.this r0)); reflexivity. }
  destruct e as [data|data|message|code| |]; cbn [Tunnel.step].
  - apply Hparse.
  - rewrite Hparse. reflexivity.
  - reflexivity.
  - destruct (negb match code with Some 0%Z => true | _ => false end
              && negb (truthy (Tunnel.tunnelUrl (Tunnel.this r'))));
      reflexivity.
  - destruct (negb (truthy (Tunnel.tunnelUrl (Tunnel.this r'))));
      [|reflexivity].
    cbn [Tunnel.set_promise Tunnel.this]. apply Hstop.
  - apply Hstop.
Qed.

(** The state [share] leaves when it goes through. *)
Lemma share_ready (w : World) (options : ShareOptions) :
  ready (share w options) = true ->
  exists content port url a,
    disk w !! resolve (cwd w) (share_filePath options)
    = Some (RegularFile content true)
    /\ (port = 3000
        \/ (port = 3001 /\ net w 3000 = Server.EmitsError "EADDRINUSE"))
    /\ net w port = Server.Listens
    /\ Tunnel.promise
         (Tunnel.run
            (Tunnel.start
               (Tunnel.new_CloudflareTunnel
                  {| Tunnel.options_port := port |}))
            (cloudflared w))
       = Fulfilled url
    /\ share w options
       = {| server := Some a;
            tunnel :=
              Some (Tunnel.run
                      (Tunnel.start
                         (Tunnel.new_CloudflareTunnel
                            {| Tunnel.options_port := port |}))
                      (cloudflared w));
            expirationTimer :=
              Some {| delay :=
                        timer_delay
                          (or_default (share_expire options) 60 * 60 * 1000);
                      cleared := false |};
            progressBar := None;
            listeners := Some (or_default (share_maxDownloads options) 1);
            signals := true; exit_pending := None; exited := None |}
    /\ Server.server (Server.self a)
       = Some {| Server.bound := port; Server.listening := true |}
    /\ Server.filePath (Server.self a)
       = resolve (cwd w) (share_filePath options)
    /\ Server.passwordHash (Server.self a)
       = Server.passwordHash
           (Server.new_FileServer
              {| Server.options_filePath :=
                   resolve (cwd w) (share_filePath options);
                 Server.options_password := share_password options;
                 Server.options_port := Some 3000 |})
    /\ Server.getDownloadCount (Server.self a) = 0
    /\ Server.fs a = served_files (disk w)
    /\ Server.connections a = []
    /\ Server.emitted a = [].
Proof.
  unfold ready, share.
  destruct (valid (validateFile (cwd w) (disk w) (share_filePath options)))
    eqn:Hvalid; [|discriminate].
  destruct (validateFile_valid _ _ _ Hvalid) as (content & Hdisk & ->).
  cbn [absolutePath].
  set (s0 := Server.new_FileServer _).
  destruct (Server.start (net w) s0) as [s1 [port|e|e]] eqn:Hstart;
    [|discriminate..].
  destruct (start_resolved _ _ _ _ Hstart)
    as (Hl & Hport & Hpath & Hhash & Hcount & Hfree & Hwhich).
  set (t := Tunnel.run _ (cloudflared w)).
  destruct (Tunnel.promise t) as [|url|e] eqn:Hpromise; [discriminate| |
    discriminate].
  intros _. exists content, port, url, (serving w s1).
  split; [exact Hdisk|]. split; [exact Hwhich|]. split; [exact Hfree|].
  split; [exact Hpromise|]. split; [reflexivity|].
  cbn [serving Server.self Server.fs Server.connections Server.emitted].
  repeat split; assumption.
Qed.

(** X21. When [share] goes through, the tunnel was started for the port
    the server is listening on: port 3000, or 3001 when 3000 was taken.
    The subprocess was spawned as [cloudflared tunnel --url
    http://localhost:<that port>], the server serves the resolved path, and
    the listeners wait for the [maxDownloads] given (1 when none or 0 was
    given); no exit is due. *)
Theorem share_tunnels_the_bound_port (w : World) (options : ShareOptions) :
  ready (share w options) = true ->
  exists port t0 t,
    (port = 3000
     \/ (port = 3001 /\ net w 3000 = Server.EmitsError "EADDRINUSE"))
    /\ net w port = Server.Listens
    /\ listener (share w options)
       = Some {| Server.bound := port; Server.listening := true |}
    /\ tunnel (share w options) = Some t
    /\ t = Tunnel.run t0 (cloudflared w)
    /\ Tunnel.process (Tunnel.this t0)
       = Some {| Tunnel.command := "cloudflared";
                 Tunnel.args := ["tunnel"; "--url";
                                 "http://localhost:" +:+ show_N port]
                                %string |}
    /\ Tunnel.options (Tunnel.this t) = {| Tunnel.options_port := port |}
    /\ (exists url, Tunnel.promise t = Fulfilled url)
    /\ (exists a, server (share w options) = Some a
                  /\ Server.filePath (Server.self a)
                     = resolve (cwd w) (share_filePath options))
    /\ listeners (share w options)
       = Some (or_default (share_maxDownloads options) 1)
    /\ exit_pending (share w options) = None
    /\ exited (share w options) = None.
Proof.
  intros Hready.
  destruct (share_ready w options Hready)
    as (content & port & url & a & _ & Hwhich & Hfree & Hpromise & ->
        & Hl & Hpath & _).
  exists port. eexists. eexists.
  split; [exact Hwhich|]. split; [exact Hfree|].
  split; [exact Hl|]. split; [reflexivity|]. split; [reflexivity|].
  split; [reflexivity|]. split; [apply tunnel_options_run|].
  split; [exists url; exact Hpromise|].
  split; [exists a; split; [reflexivity|exact Hpath]|].
  repeat split.
Qed.

(** X22. The expiration timer [share] arms is not cleared, and it runs
    after the [expire] minutes given as long as these are at most 35791;
    for more minutes the delay passes 2^31 - 1 milliseconds and the timer
    runs after 1 millisecond. *)
Theorem expiration_timer_overflows
    (w : World) (options : ShareOptions) (minutes : Z) :
  ready (share w options) = true ->
  share_expire options = Some minutes -> (1 <= minutes)%Z ->
  exists timer,
    expirationTimer (share w options) = Some timer
    /\ cleared timer = false
    /\ delay timer
       = (if minutes <=? 35791 then minutes * 60 * 1000 else 1)%Z.
Proof.
  intros Hready Hexpire Hpos.
  destruct (share_ready w options Hready)
    as (content & port & url & a & _ & _ & _ & _ & -> & _).
  eexists. split; [reflexivity|]. split; [reflexivity|].
  cbn [delay]. rewrite Hexpire. unfold or_default, timer_delay.
  destruct (Z.eqb_spec minutes 0); [lia|].
  destruct (Z.ltb_spec (minutes * 60 * 1000) 1); [lia|].
  destruct (Z.ltb_spec 2147483647 (minutes * 60 * 1000));
    destruct (Z.leb_spec minutes 35791); cbn [orb]; lia.
Qed.

(** X23. Whenever [share] ends in failure (the file is refused, the server
    does not start, or the tunnel does not come up), nothing is left
    running and the process exits with code 1, at once or when the
    [cleanup] it waits for resolves; the signal handlers were not
    registered. *)
Theorem share_failure_exits_with_1 (w : World) (options : ShareOptions) :
  failed (share w options) = true ->
  shut_down (share w options)
  /\ exited (step (share w options) CleanupResolved) = Some (ExitCode 1)
  /\ ready (share w options) = false.
Proof.
  unfold share.
  assert (Hnothing : shut_down (exit 1 new_Process)
                     /\ exited (step (exit 1 new_Process) CleanupResolved)
                        = Some (ExitCode 1)
                     /\ ready (exit 1 new_Process) = false).
  { split; [|split; reflexivity]. repeat split. }
  destruct (validateFile (cwd w) (disk w) (share_filePath options))
    as [[|] e [absolute|]]; cbn [valid absolutePath];
    try (intros _; exact Hnothing).
  set (s0 := Server.new_FileServer _).
  pose proof (start_not_resolved (net w) s0 eq_refl) as Hstart.
  destruct (Server.start (net w) s0) as [s1 [port|e1|e1]].
  - set (t := Tunnel.run _ (cloudflared w)).
    destruct (Tunnel.promise t) as [|url|e2]; try discriminate.
    intros _. split; [|split; reflexivity].
    apply (cleanup_shut_down
             (set_tunnel (Some t)
                {| server := Some (serving w s1); tunnel := None;
                   expirationTimer := None; progressBar := None;
                   listeners := Some (or_default (share_maxDownloads options) 1);
                   signals := false; exit_pending := None;
                   exited := None |})).
  - intros _. split; [|split; reflexivity].
    apply (cleanup_shut_down (set_server (Some (serving w s1)) new_Process)).
  - intros _. split; [|split; reflexivity].
    unfold shut_down, listener. cbn. repeat split.
    destruct (Server.server s1); [exact Hstart|exact I].
Qed.


Lemma events_with_listener (l : option Server.Listener) (a : Server.App)
    (i : Server.Input) :
  ServerEvents.events_of (with_listener l a) i = ServerEvents.events_of a i.
Proof.
  destruct a as [[fp ph po dc l0] files cs em].
  destruct i as [q|id n|id|id|path content|path]; reflexivity.
Qed.









End OrchestratorProps.

Section ShutdownProps.
Import Js Utils UtilsRest Orchestrator.
Context `{Bcrypt.Impl}.

Lemma process_run_invariant (P : Process -> Prop) :
  (forall p i, P p -> P (step p i)) ->
  forall inputs p, P p -> P (run p inputs).
Proof.
  intros Hstep inputs. induction inputs as [|i inputs IH]; intros p Hp;
    [exact Hp|].
  cbn. apply IH, Hstep, Hp.
Qed.

Lemma tunnel_step_stays_stopped (t : Tunnel.Run) (e : Tunnel.Event) :
  Tunnel.process (Tunnel.this t) = None ->
  Tunnel.process (Tunnel.this (Tunnel.step t e)) = None.
Proof.
  intros Hnone.
  assert (Hparse : forall data r,
             Tunnel.process (Tunnel.this (Tunnel.parseForUrl data r))
             = Tunnel.process (Tunnel.this r)).
  { intros data r. unfold Tunnel.parseForUrl.
    destruct (Tunnel.regex_match data); [|reflexivity].
    destruct (negb (truthy (Tunnel.tunnelUrl (Tunnel.this r))));
      reflexivity. }
  destruct e as [data|data|message|code| |]; cbn [Tunnel.step].
  - rewrite Hparse. exact Hnone.
  - rewrite Hparse. exact Hnone.
  - exact Hnone.
  - destruct (negb match code with Some 0%Z => true | _ => false end
              && negb (truthy (Tunnel.tunnelUrl (Tunnel.this t))));
      exact Hnone.
  - destruct (negb (truthy (Tunnel.tunnelUrl (Tunnel.this t))));
      [|exact Hnone].
    apply (tunnel_stop_stopped t).
  - apply tunnel_stop_stopped.
Qed.

Lemma services_down_cleanup (q : Process) : services_down (cleanup q).
Proof.
  destruct (cleanup_shut_down q) as (Hl & Ht & Hm & _).
  split; [exact Hl|]. split; [|exact Hm].
  destruct (tunnel (cleanup q)); [apply Ht|exact I].
Qed.

Lemma services_down_same (q q' : Process) :
  services q' = services q -> services_down q -> services_down q'.
Proof.
  unfold services, services_down. intros E. injection E as -> -> ->.
  auto.
Qed.

Lemma on_server_event_down (m : Z) (e : Server.Emitted) (q : Process)
    (code : N) :
  services_down q -> exit_pending q = Some code ->
  services_down (on_server_event m e q)
  /\ exit_pending (on_server_event m e q) = Some code
  /\ signals (on_server_event m e q) = signals q
  /\ exited (on_server_event m e q) = exited q.
Proof.
  intros Hdown Hpending.
  destruct (on_server_event_services m e q) as (Hex & _ & _ & Hrest).
  assert (Hsignals : signals (on_server_event m e q) = signals q).
  { destruct e as [|downloaded total|downloaded total count|];
      cbn [on_server_event]; try reflexivity.
    - destruct (progressBar q); reflexivity.
    - destruct (m <=? Z.of_N count)%Z; reflexivity. }
  assert (Hcases : (exit_pending (on_server_event m e q)
                    = Some (default 0 (exit_pending q))
                    /\ services (on_server_event m e q)
                       = services (cleanup q))
                   \/ (exit_pending (on_server_event m e q) = exit_pending q
                       /\ services (on_server_event m e q) = services q)).
  { destruct e as [|downloaded total|downloaded total count|]; auto.
    destruct (m <=? Z.of_N count)%Z; auto. }
  destruct Hcases as [[Hp Hs]|[Hp Hs]].
  - split; [exact (services_down_same _ _ Hs (services_down_cleanup q))|].
    rewrite Hp, Hpending. auto.
  - split; [exact (services_down_same _ _ Hs Hdown)|].
    rewrite Hp, Hpending. auto.
Qed.

Lemma on_server_events_down (events : list Server.Emitted) (code : N) :
  forall q,
  services_down q -> exit_pending q = Some code ->
  services_down (on_server_events events q)
  /\ exit_pending (on_server_events events q) = Some code
  /\ signals (on_server_events events q) = signals q
  /\ exited (on_server_events events q) = exited q.
Proof.
  unfold on_server_events. intros q.
  destruct (listeners q) as [m|]; [|auto].
  revert q. induction events as [|e events IH]; intros q Hdown Hpending;
    [auto|].
  cbn [fold_left].
  destruct (on_server_event_down m e q code Hdown Hpending)
    as (Hd & Hp & Hs & Hx).
  destruct (IH _ Hd Hp) as (Hd' & Hp' & Hs' & Hx').
  rewrite Hs', Hx', Hs, Hx. auto.
Qed.

(** X25. Shutting down is final.  Once the listener is closed, the tunnel
    has no subprocess, the timer is cleared and an exit is due, no request,
    tunnel event, timer or signal brings any of them back or changes the
    exit code that is due: the process exits with that code when the
    [cleanup] it waits for resolves, unless a signal without handler kills
    it first. *)
Theorem shutdown_is_final (p : Process) (code : N) (inputs : list Input) :
  services_down p -> exit_pending p = Some code -> exited p = None ->
  let p' := run p inputs in
  services_down p'
  /\ exit_pending p' = Some code
  /\ (exited p' = None
      \/ exited p' = Some (ExitCode code)
      \/ (signals p = false /\ exited p' = Some KilledBySignal))
  /\ (exited p' = None ->
      exited (step p' CleanupResolved) = Some (ExitCode code)).
Proof.
  intros Hdown Hpending Hex. cbv zeta.
  assert (Hinv : services_down (run p inputs)
                 /\ exit_pending (run p inputs) = Some code
                 /\ signals (run p inputs) = signals p
                 /\ (exited (run p inputs) = None
                     \/ exited (run p inputs) = Some (ExitCode code)
                     \/ (signals p = false
                         /\ exited (run p inputs) = Some KilledBySignal))).
  { apply (process_run_invariant
             (fun q => services_down q
                       /\ exit_pending q = Some code
                       /\ signals q = signals p
                       /\ (exited q = None
                           \/ exited q = Some (ExitCode code)
                           \/ (signals p = false
                               /\ exited q = Some KilledBySignal))));
      [|auto].
    clear inputs. intros q i (Hd & Hp & Hs & Hx).
    unfold step. destruct (exited q) as [t|] eqn:Hq; [rewrite Hq; auto|].
    destruct i as [si|e| | |].
    - destruct (server q) as [a|] eqn:Hserver; [|rewrite Hq; auto].
      set (q1 := set_server (Some (Server.step a si)) q).
      assert (Hd1 : services_down q1).
      { destruct Hd as (Hl & Ht & Hm). split; [|split; assumption].
        unfold listener in *. unfold q1. cbn [server set_server].
        rewrite step_listener. rewrite Hserver in Hl. exact Hl. }
      destruct (on_server_events_down (ServerEvents.events_of a si) code
                  q1 Hd1 Hp) as (Hd' & Hp' & Hs' & Hx').
      rewrite Hx', Hs'.
      split; [exact Hd'|]. split; [exact Hp'|]. split; [exact Hs|].
      left. exact Hq.
    - destruct (tunnel q) as [t|] eqn:Htunnel; [|rewrite Hq; auto].
      cbn [set_tunnel exited exit_pending signals]. rewrite Hq.
      split; [|auto].
      destruct Hd as (Hl & Ht & Hm). split; [exact Hl|]. split; [|exact Hm].
      cbn [tunnel set_tunnel]. rewrite Htunnel in Ht.
      apply tunnel_step_stays_stopped, Ht.
    - destruct (expirationTimer q) as [[d c]|] eqn:Htimer;
        [|rewrite Hq; auto].
      destruct Hd as (Hl & Ht & Hm). rewrite Htimer in Hm. cbn in Hm.
      subst c.
      split; [split; [exact Hl|split; [exact Ht|]]|auto].
      rewrite Htimer. reflexivity.
    - destruct (signals q) eqn:Hsig.
      + cbn [exit_after_cleanup cleanup exited exit_pending signals].
        rewrite Hp, Hq, Hsig. split; [|auto].
        apply (services_down_same (cleanup q));
          [reflexivity|apply services_down_cleanup].
      + cbn [terminate exited exit_pending signals]. rewrite Hq, Hsig.
        split; [exact Hd|]. split; [exact Hp|]. split; [exact Hs|].
        right. right. split; [congruence|reflexivity].
    - rewrite Hp. unfold exit. cbn [terminate exited exit_pending signals].
      rewrite Hq. split; [exact Hd|]. auto. }
  destruct Hinv as (Hd & Hp & _ & Hx).
  split; [exact Hd|]. split; [exact Hp|]. split; [exact Hx|].
  intros Hnone. unfold step. rewrite Hnone, Hp. unfold exit, terminate.
  cbn [exited]. rewrite Hnone. reflexivity.
Qed.

End ShutdownProps.

Section OrchestratorExamples.
Import Js Utils UtilsRest Orchestrator Samples.

Lemma shutdown_at_max_downloads_witness :
  let p0 := share (H := Bcrypt.tagged) busy_world two_downloads in
  let p1 := run (H := Bcrypt.tagged) p0
              (map ServerInput (whole_download 0)) in
  let p2 := run (H := Bcrypt.tagged) p0
              (map ServerInput (whole_download 0 ++ whole_download 1)) in
  listeners p0 = Some 2%Z
  /\ (downloads p1 = 1 /\ exit_pending p1 = None
      /\ services p1 = services p0)
  /\ (downloads p2 = 2 /\ exit_pending p2 = Some 0
      /\ services p2 = services (cleanup p0)
      /\ exited (step (H := Bcrypt.tagged) p2 CleanupResolved)
         = Some (ExitCode 0)).
Proof.
  cbv zeta.
  pose proof (shutdown_at_max_downloads (H := Bcrypt.tagged)
                (share (H := Bcrypt.tagged) busy_world two_downloads) 2
                (whole_download 0) eq_refl eq_refl eq_refl) as H1.
  pose proof (shutdown_at_max_downloads (H := Bcrypt.tagged)
                (share (H := Bcrypt.tagged) busy_world two_downloads) 2
                (whole_download 0 ++ whole_download 1)
                eq_refl eq_refl eq_refl) as H2.
  cbv zeta in H1, H2.
  destruct H1 as (_ & H1p & H1s & _). destruct H2 as (_ & H2p & H2s & H2e).
  split; [reflexivity|]. split.
  - split; [reflexivity|]. split; [exact H1p|exact H1s].
  - split; [reflexivity|]. split; [exact H2p|]. split; [exact H2s|exact H2e].
Defined.

Lemma share_tunnels_the_bound_port_witness :
  ready (share (H := Bcrypt.tagged) busy_world two_downloads) = true
  /\ exists t,
       listener (share (H := Bcrypt.tagged) busy_world two_downloads)
       = Some {| Server.bound := 3001; Server.listening := true |}
       /\ tunnel (share (H := Bcrypt.tagged) busy_world two_downloads)
          = Some t
       /\ Tunnel.options (Tunnel.this t) = {| Tunnel.options_port := 3001 |}.
Proof.
  split; [reflexivity|].
  destruct (share_tunnels_the_bound_port (H := Bcrypt.tagged)
              busy_world two_downloads eq_refl)
    as (port & t0 & t & _ & _ & Hl & Ht & _ & _ & Hopt & _).
  exists t.
  assert (Hport : port = 3001).
  { assert (E : listener (share (H := Bcrypt.tagged) busy_world
                            two_downloads)
                = Some {| Server.bound := 3001; Server.listening := true |})
      by reflexivity.
    rewrite E in Hl. injection Hl as <-. reflexivity. }
  rewrite Hport in *. split; [exact Hl|]. split; [exact Ht|exact Hopt].
Defined.

Lemma expiration_timer_overflows_witness :
  exists timer,
    expirationTimer (share (H := Bcrypt.tagged) busy_world thirty_days)
    = Some timer
    /\ cleared timer = false /\ delay timer = 1%Z.
Proof.
  apply (expiration_timer_overflows (H := Bcrypt.tagged)
           busy_world thirty_days 43200); [reflexivity|reflexivity|lia].
Defined.

Lemma share_failure_exits_with_1_witness :
  failed (share (H := Bcrypt.tagged) offline_world two_downloads) = true
  /\ shut_down (share (H := Bcrypt.tagged) offline_world two_downloads)
  /\ exited (step (H := Bcrypt.tagged)
               (share (H := Bcrypt.tagged) offline_world two_downloads)
               CleanupResolved)
     = Some (ExitCode 1).
Proof.
  split; [reflexivity|].
  destruct (share_failure_exits_with_1 (H := Bcrypt.tagged)
              offline_world two_downloads eq_refl) as (Hdown & Hexit & _).
  split; [exact Hdown|exact Hexit].
Defined.


Lemma shutdown_is_final_witness :
  let p := share (H := Bcrypt.tagged) offline_world two_downloads in
  let p' := run (H := Bcrypt.tagged) p
              (map ServerInput (whole_download 0)
               ++ [TunnelEvent (Tunnel.Stderr
                                  "https://late.trycloudflare.com");
                   TimerFired]) in
  exit_pending p = Some 1
  /\ services_down p'
  /\ exit_pending p' = Some 1
  /\ exited (step (H := Bcrypt.tagged) p' CleanupResolved)
     = Some (ExitCode 1).
Proof.
  cbv zeta. split; [reflexivity|].
  destruct (shutdown_is_final (H := Bcrypt.tagged)
              (share (H := Bcrypt.tagged) offline_world two_downloads) 1
              (map ServerInput (whole_download 0)
               ++ [TunnelEvent (Tunnel.Stderr
                                  "https://late.trycloudflare.com");
                   TimerFired]))
    as (Hdown & Hpending & _ & Hexit).
  - vm_compute. repeat split; reflexivity.
  - reflexivity.
  - reflexivity.
  - split; [exact Hdown|]. split; [exact Hpending|].
    apply Hexit. reflexivity.
Defined.

End OrchestratorExamples.

